(** * modis_atm.overpass_filter: selection of the best satellite overpass

    A shallow embedding of [src/modis_atm/overpass_filter.py] and the
    properties of its grouping, scoring and selection functions.

    Modelling conventions.
    - A Python [datetime] is its wall-clock reading in microseconds since
      1970-01-01 00:00 (an integer) together with its [tzinfo]: [None] for a
      naive value, the UTC offset in microseconds for an aware one (time
      zones are fixed offsets, as [datetime.timezone] has them).
    - A [timedelta] is a signed number of microseconds.
    - Python numbers (the tunables, hours, area ratios) are modelled twice.
      The first embedding takes them as exact rationals [Q]; it carries the
      properties of grouping and selection, which are stated in the values
      the scorers return.  The second, in [Module Binary64], takes them as
      binary64 floats, each operation rounding the exact result to the
      nearest float (ties to even) with infinities and nan; it carries the
      properties that depend on what the arithmetic returns.
    - A raising Python function returns [Err] with the exception raised.
    - The [defaultdict] of date groups is an insertion-ordered association
      list whose keys are compared with the equality of [datetime].
    - Shapely geometries are an interface with [intersection] and [area];
      [np.sum] is an interface too in the binary64 embedding. *)

From Stdlib Require Import String ZArith QArith Qabs Qround Qpower.
From Stdlib Require Import List Bool Lia Lqa Permutation.
Import ListNotations.

Local Open Scope Z_scope.
Set Warnings "-notation-for-abbreviation".

(** ** Exceptions and fallible computations *)

Inductive exn : Type :=
| TypeError
| ZeroDivisionError
| OverflowError
| ValueError (msg : string).

Inductive result (A : Type) : Type :=
| Ok (a : A)
| Err (e : exn).

Arguments Ok {A} a.
Arguments Err {A} e.

Definition bind {A B : Type} (c : result A) (k : A -> result B) : result B :=
  match c with
  | Ok a => k a
  | Err e => Err e
  end.

Declare Scope py_scope.
Delimit Scope py_scope with py.
Notation "x <- c ;; k" := (bind c (fun x => k))
  (at level 61, c at next level, right associativity) : py_scope.
Local Open Scope py_scope.

(** ** timedelta and datetime *)

Definition timedelta := Z.

(** [timedelta.total_seconds()]: microseconds divided by [10**6]. *)
Definition total_seconds (td : timedelta) : Q := (inject_Z td / 1000000)%Q.

(** Python's [_divide_and_round a b] for [b > 0]: the quotient nearest to
    [a / b], a tie going to the even quotient. *)
Definition divide_and_round (a b : Z) : Z :=
  let q := a / b in
  let r := 2 * (a mod b) in
  if (b <? r) || ((r =? b) && (q mod 2 =? 1)) then q + 1 else q.

(** [timedelta / int]. *)
Definition timedelta_div (td : timedelta) (n : Z) : timedelta :=
  divide_and_round td n.

Record datetime : Type := mkDatetime {
  wall : Z;               (* microseconds on the wall clock *)
  tzinfo : option Z       (* None: naive; Some off: aware, utcoffset() = off *)
}.

Definition aware (d : datetime) : bool :=
  match tzinfo d with Some _ => true | None => false end.

(** [d.replace(tzinfo=None)] keeps the wall-clock fields. *)
Definition replace_tzinfo_None (d : datetime) : datetime :=
  mkDatetime (wall d) None.

(** The wall-clock readings of [datetime.min] (0001-01-01 00:00:00) and
    [datetime.max] (9999-12-31 23:59:59.999999). *)
Definition datetime_min : Z := -62135596800000000.
Definition datetime_max : Z := 253402300799999999.

Definition in_range (w : Z) : bool :=
  (datetime_min <=? w) && (w <=? datetime_max).

(** [datetime + timedelta] keeps the [tzinfo] of the datetime and raises
    [OverflowError] when the wall clock leaves the range of [datetime]. *)
Definition datetime_add (d : datetime) (td : timedelta) : result datetime :=
  let w := wall d + td in
  if in_range w then Ok (mkDatetime w (tzinfo d)) else Err OverflowError.

(** [datetime.__sub__] on two datetimes: the wall-clock difference when the
    offsets agree, [TypeError] when exactly one side is naive, the difference
    of the UTC instants otherwise. *)
Definition datetime_sub (a b : datetime) : result timedelta :=
  let base := wall a - wall b in
  match tzinfo a, tzinfo b with
  | None, None => Ok base
  | Some myoff, Some otoff =>
      if myoff =? otoff then Ok base else Ok (base + otoff - myoff)
  | _, _ => Err TypeError
  end.

(** [datetime.__eq__], which with [__hash__] decides when two dictionary
    keys are the same key: a naive and an aware value are never equal, two
    aware values are equal when they are the same instant. *)
Definition datetime_eqb (a b : datetime) : bool :=
  match tzinfo a, tzinfo b with
  | None, None => wall a =? wall b
  | Some myoff, Some otoff => (wall a - myoff) =? (wall b - otoff)
  | _, _ => false
  end.

(** The operations [_value_date] asks of its two date arguments. *)
Class Timestamp (T : Type) : Type := {
  ts_sub : T -> T -> result timedelta;
  ts_replace_tzinfo_None : T -> T
}.

#[export] Instance datetime_Timestamp : Timestamp datetime := {
  ts_sub := datetime_sub;
  ts_replace_tzinfo_None := replace_tzinfo_None
}.

(** Python's true division of two numbers. *)
Definition py_div (x y : Q) : result Q :=
  if Qeq_bool y 0 then Err ZeroDivisionError else Ok (x / y)%Q.

(** ** The temporal scorer *)

(** Lines 38-43: the subtraction, retried on timezone-naive copies when it
    raises [TypeError]. *)
Definition try_subtract {T : Type} `{Timestamp T}
    (overpass_date target_date : T) : result timedelta :=
  match ts_sub overpass_date target_date with
  | Err TypeError =>
      let overpass_date := ts_replace_tzinfo_None overpass_date in
      let target_date := ts_replace_tzinfo_None target_date in
      ts_sub overpass_date target_date
  | r => r
  end.

(** Line 44: [abs(ddiff.total_seconds() / 3600)]. *)
Definition abs_hours (ddiff : timedelta) : Q :=
  Qabs (total_seconds ddiff / 3600).

(** Lines 44-50. *)
Definition value_of_ddiff (ddiff : timedelta) (max_diff_hours : Q) : result Q :=
  let diff_hours := abs_hours ddiff in
  if Qlt_le_dec max_diff_hours diff_hours then Ok 0%Q
  else py_div (max_diff_hours - diff_hours) max_diff_hours.

Definition _value_date {T : Type} `{Timestamp T}
    (overpass_date target_date : T) (max_diff_hours : Q) : result Q :=
  ddiff <- try_subtract overpass_date target_date ;;
  value_of_ddiff ddiff max_diff_hours.

(** ** The grouper *)

Definition _average_datetime (date1 date2 : datetime) : result datetime :=
  dt <- datetime_sub date2 date1 ;;
  date <- datetime_add date1 (timedelta_div dt 2) ;;
  Ok date.

(** Shapely's part in the code: the intersection of two geometries and the
    area of a geometry. *)
Class Geometry (G : Type) : Type := {
  intersection : G -> G -> G;
  area : G -> Q
}.

Section Overpass.

Context {G : Type} `{Geometry G}.

(** A parsed entry: the keys of the dictionary that the code reads. *)
Record entry : Type := mkEntry {
  start_date : datetime;
  end_date : datetime;
  footprint : G
}.

(** The [defaultdict(list)] of line 16, in insertion order. *)
Definition date_groups_t : Type := list (datetime * list entry).

(** [date_groups[date].append(e)]: the list of an existing equal key grows
    at its end; a missing key is inserted last with the list [[e]]. *)
Fixpoint dict_append (date_groups : date_groups_t) (date : datetime) (e : entry)
    : date_groups_t :=
  match date_groups with
  | [] => [(date, [e])]
  | (k, es) :: rest =>
      if datetime_eqb k date then (k, es ++ [e]) :: rest
      else (k, es) :: dict_append rest date e
  end.

(** [date_groups[overpass_date]]; the default factory gives the empty list. *)
Fixpoint dict_getitem (date_groups : date_groups_t) (overpass_date : datetime)
    : list entry :=
  match date_groups with
  | [] => []
  | (k, es) :: rest =>
      if datetime_eqb k overpass_date then es else dict_getitem rest overpass_date
  end.

Definition dict_keys (date_groups : date_groups_t) : list datetime :=
  map fst date_groups.

(** The loop of lines 17-21 over the entries still to be read. *)
Fixpoint group_loop (date_groups : date_groups_t) (parsed_entries : list entry)
    : result date_groups_t :=
  match parsed_entries with
  | [] => Ok date_groups
  | e :: rest =>
      date <- _average_datetime (start_date e) (end_date e) ;;
      group_loop (dict_append date_groups date e) rest
  end.

Definition group_entries_by_date (parsed_entries : list entry)
    : result date_groups_t :=
  group_loop [] parsed_entries.

(** ** The spatial scorer *)

Definition _value_overlap (footprint_geom aoi_geom : G) : result Q :=
  let inter := intersection aoi_geom footprint_geom in
  let intersectionpct := py_div (area inter) (area aoi_geom) in
  intersectionpct.

(** ** The selector *)

(** Lines 104-109: the overlap value of each entry of a group, in order. *)
Fixpoint overlap_loop (aoi_geom : G) (entries : list entry) (overlap_values : list Q)
    : result (list Q) :=
  match entries with
  | [] => Ok overlap_values
  | e :: rest =>
      v <- _value_overlap (footprint e) aoi_geom ;;
      overlap_loop aoi_geom rest (overlap_values ++ [v])
  end.

(** [np.sum] of a list of numbers. *)
Definition np_sum (l : list Q) : Q := fold_left Qplus l 0%Q.

(** The loop variables [best_date_value] and [best_entries]; [None] is the
    Python [None] of line 93. *)
Definition best_t : Type := (Q * option (list entry))%type.

(** One iteration of the loop of lines 94-116. *)
Definition scan_group (date_groups : date_groups_t) (aoi_geom : G)
    (target_date : datetime) (max_diff_hours min_overlap_pct : Q)
    (best : best_t) (overpass_date : datetime) : result best_t :=
  let '(best_date_value, best_entries) := best in
  date_value <- _value_date overpass_date target_date max_diff_hours ;;
  if Qeq_bool date_value 0 then Ok best
  else
    let entries := dict_getitem date_groups overpass_date in
    overlap_values <- overlap_loop aoi_geom entries [] ;;
    if Qlt_le_dec (np_sum overlap_values) min_overlap_pct then Ok best
    else if Qlt_le_dec best_date_value date_value
         then Ok (date_value, Some entries)
         else Ok best.

Fixpoint scan (date_groups : date_groups_t) (aoi_geom : G)
    (target_date : datetime) (max_diff_hours min_overlap_pct : Q)
    (keys : list datetime) (best : best_t) : result best_t :=
  match keys with
  | [] => Ok best
  | overpass_date :: rest =>
      best' <- scan_group date_groups aoi_geom target_date
                 max_diff_hours min_overlap_pct best overpass_date ;;
      scan date_groups aoi_geom target_date max_diff_hours min_overlap_pct
        rest best'
  end.

Definition no_overpass : exn :=
  ValueError "No reasonably close overpass among entries."%string.

Definition get_best_overpass (parsed_entries : list entry) (aoi_geom : G)
    (target_date : datetime) (max_diff_hours min_overlap_pct : Q)
    : result (option (list entry)) :=
  date_groups <- group_entries_by_date parsed_entries ;;
  best <- scan date_groups aoi_geom target_date max_diff_hours min_overlap_pct
            (dict_keys date_groups) (0%Q, None) ;;
  let '(best_date_value, best_entries) := best in
  if Qeq_bool best_date_value 0 then Err no_overpass
  else Ok best_entries.

End Overpass.

Arguments entry G : clear implicits.
Arguments date_groups_t G : clear implicits.
Arguments best_t G : clear implicits.

(** ** The scorers and the selector over binary64 floats *)

Module Binary64.

(** A float: a finite rational (a representable one, see [is_float]), an
    infinity or nan.  The sign of zero is not represented; nothing in the
    code observes it. *)
Inductive float : Type :=
| Fin (q : Q)
| PInf
| NInf
| NaN.

(** The integer part of the base-2 logarithm of a positive rational. *)
Definition ilog2 (a : Q) : Z :=
  let k0 := Z.log2 (Qnum a) - Z.log2 (Zpos (Qden a)) in
  if Qle_bool (2 ^ k0) a then k0 else k0 - 1.

(** The exponent of the last place of the floats near [a]: 53 significant
    bits, and no exponent below that of the subnormal numbers. *)
Definition ulp_exp (a : Q) : Z := Z.max (ilog2 a - 52) (-1074).

(** The integer nearest to [x], a tie going to the even one. *)
Definition round_half_even (x : Q) : Z :=
  let f := Qfloor (x + (1 # 2)) in
  if Qeq_bool (inject_Z f) (x + (1 # 2)) && Z.odd f then f - 1 else f.

Definition rnd_val (a : Q) : Q :=
  (inject_Z (round_half_even (a / 2 ^ ulp_exp a)) * 2 ^ ulp_exp a)%Q.

(** The float nearest to a positive rational; infinity from [2 ^ 1024]. *)
Definition rnd_pos (a : Q) : float :=
  let r := rnd_val a in
  if Qle_bool (2 ^ 1024) r then PInf else Fin (Qred r).

Definition f_neg (x : float) : float :=
  match x with
  | Fin q => Fin (Qred (- q))
  | PInf => NInf
  | NInf => PInf
  | NaN => NaN
  end.

(** Rounding to nearest, ties to even: the result of every float operation
    is [rnd] of its exact result. *)
Definition rnd (q : Q) : float :=
  match (q ?= 0)%Q with
  | Eq => Fin 0
  | Gt => rnd_pos q
  | Lt => f_neg (rnd_pos (- q))
  end.

Definition f_abs (x : float) : float :=
  match x with
  | Fin q => Fin (Qred (Qabs q))
  | PInf | NInf => PInf
  | NaN => NaN
  end.

Definition f_add (x y : float) : float :=
  match x, y with
  | NaN, _ | _, NaN => NaN
  | Fin a, Fin b => rnd (a + b)
  | PInf, NInf | NInf, PInf => NaN
  | PInf, _ | _, PInf => PInf
  | NInf, _ | _, NInf => NInf
  end.

Definition f_sub (x y : float) : float :=
  match x, y with
  | NaN, _ | _, NaN => NaN
  | Fin a, Fin b => rnd (a - b)
  | Fin _, PInf => NInf
  | Fin _, NInf => PInf
  | PInf, PInf => NaN
  | PInf, _ => PInf
  | NInf, NInf => NaN
  | NInf, _ => NInf
  end.

(** Division by a divisor that is not zero. *)
Definition f_div (x y : float) : float :=
  match x, y with
  | NaN, _ | _, NaN => NaN
  | Fin a, Fin b => rnd (a / b)
  | Fin _, _ => Fin 0
  | PInf, Fin b => if Qlt_le_dec 0 b then PInf else NInf
  | NInf, Fin b => if Qlt_le_dec 0 b then NInf else PInf
  | _, _ => NaN
  end.

(** [x < y]. *)
Definition f_ltb (x y : float) : bool :=
  match x, y with
  | NaN, _ | _, NaN => false
  | Fin a, Fin b => if Qlt_le_dec a b then true else false
  | NInf, NInf => false
  | NInf, _ => true
  | PInf, _ => false
  | Fin _, PInf => true
  | Fin _, NInf => false
  end.

(** [x <= y]. *)
Definition f_leb (x y : float) : bool :=
  match x, y with
  | NaN, _ | _, NaN => false
  | Fin a, Fin b => Qle_bool a b
  | NInf, _ => true
  | PInf, PInf => true
  | PInf, _ => false
  | Fin _, PInf => true
  | Fin _, NInf => false
  end.

(** [x == y]. *)
Definition f_eqb (x y : float) : bool :=
  match x, y with
  | Fin a, Fin b => Qeq_bool a b
  | PInf, PInf | NInf, NInf => true
  | _, _ => false
  end.

(** [n / d] on two integers: the float nearest to the quotient. *)
Definition int_true_div (n d : Z) : float := rnd (inject_Z n / inject_Z d).

(** [x / y] on floats raises on a zero divisor. *)
Definition py_div (x y : float) : result float :=
  if f_eqb y (Fin 0) then Err ZeroDivisionError else Ok (f_div x y).

(** [timedelta.total_seconds()]. *)
Definition total_seconds (td : timedelta) : float :=
  int_true_div td 1000000.

(** Lines 44-50, [max_diff_hours] being a float. *)
Definition value_of_ddiff (ddiff : timedelta) (max_diff_hours : float)
    : result float :=
  let diff_hours := f_abs (f_div (total_seconds ddiff) (Fin 3600)) in
  if f_ltb max_diff_hours diff_hours then Ok (Fin 0)
  else py_div (f_sub max_diff_hours diff_hours) max_diff_hours.

Definition _value_date {T : Type} `{Timestamp T}
    (overpass_date target_date : T) (max_diff_hours : float) : result float :=
  ddiff <- try_subtract overpass_date target_date ;;
  value_of_ddiff ddiff max_diff_hours.

(** Shapely's part in the code, the area being a float. *)
Class Geometry (G : Type) : Type := {
  intersection : G -> G -> G;
  area : G -> float
}.

(** Numpy's part in the code: the sum of a list of floats. *)
Class NumPy : Type := {
  np_sum : list float -> float
}.

Section Overpass.

Context {G : Type} `{Geometry G} `{NumPy}.

Definition _value_overlap (footprint_geom aoi_geom : G) : result float :=
  let inter := intersection aoi_geom footprint_geom in
  let intersectionpct := py_div (area inter) (area aoi_geom) in
  intersectionpct.

Fixpoint overlap_loop (aoi_geom : G) (entries : list (entry G))
    (overlap_values : list float) : result (list float) :=
  match entries with
  | [] => Ok overlap_values
  | e :: rest =>
      v <- _value_overlap (footprint e) aoi_geom ;;
      overlap_loop aoi_geom rest (overlap_values ++ [v])
  end.

Definition best_t : Type := (float * option (list (entry G)))%type.

(** One iteration of the loop of lines 94-116. *)
Definition scan_group (date_groups : date_groups_t G) (aoi_geom : G)
    (target_date : datetime) (max_diff_hours min_overlap_pct : float)
    (best : best_t) (overpass_date : datetime) : result best_t :=
  let '(best_date_value, best_entries) := best in
  date_value <- _value_date overpass_date target_date max_diff_hours ;;
  if f_eqb date_value (Fin 0) then Ok best
  else
    let entries := dict_getitem date_groups overpass_date in
    overlap_values <- overlap_loop aoi_geom entries [] ;;
    if f_ltb (np_sum overlap_values) min_overlap_pct then Ok best
    else if f_ltb best_date_value date_value
         then Ok (date_value, Some entries)
         else Ok best.

Fixpoint scan (date_groups : date_groups_t G) (aoi_geom : G)
    (target_date : datetime) (max_diff_hours min_overlap_pct : float)
    (keys : list datetime) (best : best_t) : result best_t :=
  match keys with
  | [] => Ok best
  | overpass_date :: rest =>
      best' <- scan_group date_groups aoi_geom target_date
                 max_diff_hours min_overlap_pct best overpass_date ;;
      scan date_groups aoi_geom target_date max_diff_hours min_overlap_pct
        rest best'
  end.

Definition get_best_overpass (parsed_entries : list (entry G)) (aoi_geom : G)
    (target_date : datetime) (max_diff_hours min_overlap_pct : float)
    : result (option (list (entry G))) :=
  date_groups <- group_entries_by_date parsed_entries ;;
  best <- scan date_groups aoi_geom target_date max_diff_hours min_overlap_pct
            (dict_keys date_groups) (Fin 0, None) ;;
  let '(best_date_value, best_entries) := best in
  if f_eqb best_date_value (Fin 0) then Err no_overpass
  else Ok best_entries.

End Overpass.

Arguments best_t G : clear implicits.

End Binary64.

(** ** Vocabulary of the statements *)

(** [x] is a float: an infinity, nan, or a rational that rounding leaves
    as it is. *)
Definition is_float (x : Binary64.float) : Prop :=
  match x with
  | Binary64.Fin q => Binary64.rnd q = Binary64.Fin q
  | _ => True
  end.

(** The float that Python computes for the hours in [us] microseconds:
    the integers [us] and [10**6] divided, the quotient divided by 3600,
    the absolute value taken. *)
Definition hours_apart (us : Z) : Binary64.float :=
  Binary64.f_abs
    (Binary64.f_div (Binary64.int_true_div us 1000000) (Binary64.Fin 3600)).

(** The overlap value of an entry in floats. *)
Definition overlap_ratio64 {G : Type} `{Binary64.Geometry G}
    (aoi_geom : G) (e : entry G) : Binary64.float :=
  Binary64.f_div
    (Binary64.area (Binary64.intersection aoi_geom (footprint e)))
    (Binary64.area aoi_geom).

(** The absolute difference in hours of [us] microseconds, as a rational. *)
Definition exact_hours (us : Z) : Q := Qabs (inject_Z us / 3600000000).

(** A timedelta that Python can hold: less than [10**9] days. *)
Definition valid_timedelta (td : timedelta) : Prop :=
  Z.abs td < 86400000000000000000.

(** The time from [b] to [a] in microseconds: between the two instants when
    both are aware, between the two wall-clock readings otherwise. *)
Definition elapsed (a b : datetime) : Z :=
  match tzinfo a, tzinfo b with
  | Some oa, Some ob => (wall a - oa) - (wall b - ob)
  | _, _ => wall a - wall b
  end.

(** Exactly one of the two datetimes carries timezone information. *)
Definition tz_mismatch (a b : datetime) : Prop :=
  aware a <> aware b.

Section Vocabulary.

Context {G : Type} `{Geometry G}.

(** The overpass date of an entry: the key under which it is grouped. *)
Definition midpoint (e : entry G) : result datetime :=
  _average_datetime (start_date e) (end_date e).

(** [has_key k e]: the midpoint of [e] is a key equal to [k]. *)
Definition has_key (k : datetime) (e : entry G) : bool :=
  match midpoint e with
  | Ok m => datetime_eqb k m
  | Err _ => false
  end.

(** Both dates of the entry are naive or both are aware. *)
Definition same_awareness (e : entry G) : Prop :=
  aware (start_date e) = aware (end_date e).

(** The wall-clock reading of the midpoint of an entry whose dates can be
    subtracted. *)
Definition midpoint_wall (e : entry G) : Z :=
  wall (start_date e)
  + timedelta_div (elapsed (end_date e) (start_date e)) 2.

(** The midpoint of the entry can be computed: the two dates can be
    subtracted and the midpoint is a date that [datetime] can hold. *)
Definition well_dated (e : entry G) : Prop :=
  same_awareness e /\ in_range (midpoint_wall e) = true.

(** No two keys of the mapping are equal datetimes. *)
Fixpoint distinct_keys (d : date_groups_t G) : Prop :=
  match d with
  | [] => True
  | (k, _) :: rest =>
      (forall k' es', In (k', es') rest -> datetime_eqb k k' = false)
      /\ distinct_keys rest
  end.

(** The invariant of the grouping loop: the mapping [d] holds exactly the
    entries [seen], each under the key equal to its midpoint, in the order
    of [seen]. *)
Definition grouped (seen : list (entry G)) (d : date_groups_t G) : Prop :=
  distinct_keys d
  /\ (forall k g, In (k, g) d -> g <> [] /\ g = filter (has_key k) seen)
  /\ (forall e, In e seen -> exists k g, In (k, g) d /\ has_key k e = true)
  /\ Permutation (concat (map snd d)) seen.

(** The group [g] passes both filters, with temporal value [v]. *)
Definition qualifies (aoi_geom : G) (target_date : datetime)
    (max_diff_hours min_overlap_pct : Q) (g : datetime * list (entry G)) (v : Q)
    : Prop :=
  _value_date (fst g) target_date max_diff_hours = Ok v
  /\ (0 < v)%Q
  /\ exists overlap_values,
       overlap_loop aoi_geom (snd g) [] = Ok overlap_values
       /\ (min_overlap_pct <= np_sum overlap_values)%Q.

(** The overlap value that [_value_overlap] computes for an entry. *)
Definition overlap_ratio (aoi_geom : G) (e : entry G) : Q :=
  (area (intersection aoi_geom (footprint e)) / area aoi_geom)%Q.

(** [first_best d g v]: [g] is a group of [d] that qualifies with temporal
    value [v]; every qualifying group before it in iteration order has a
    smaller temporal value, and none after it has a larger one. *)
Definition first_best (aoi_geom : G) (target_date : datetime)
    (max_diff_hours min_overlap_pct : Q) (d : date_groups_t G)
    (g : datetime * list (entry G)) (v : Q) : Prop :=
  exists before after,
    d = before ++ g :: after
    /\ qualifies aoi_geom target_date max_diff_hours min_overlap_pct g v
    /\ (forall g' v', In g' before ->
          qualifies aoi_geom target_date max_diff_hours min_overlap_pct g' v' ->
          (v' < v)%Q)
    /\ (forall g' v', In g' after ->
          qualifies aoi_geom target_date max_diff_hours min_overlap_pct g' v' ->
          (v' <= v)%Q).


(** The invariant of the selection loop after the groups [seen]: nothing is
    recorded and no group of [seen] qualifies, or the recorded entries are
    those of the first best group of [seen]. *)
Definition scanned (aoi_geom : G) (target_date : datetime)
    (max_diff_hours min_overlap_pct : Q) (seen : date_groups_t G)
    (best : best_t G) : Prop :=
  (best = (0%Q, None)
   /\ forall g v, In g seen ->
        ~ qualifies aoi_geom target_date max_diff_hours min_overlap_pct g v)
  \/ (exists g,
        snd best = Some (snd g)
        /\ first_best aoi_geom target_date max_diff_hours min_overlap_pct
             seen g (fst best)).

(** Every group of [d] starts with an entry whose midpoint is the key of
    the group. *)
Definition keyed_by_head (d : date_groups_t G) : Prop :=
  forall k g, In (k, g) d -> exists e rest, g = e :: rest /\ midpoint e = Ok k.

End Vocabulary.

Section Vocabulary64.

Context {G : Type} `{Binary64.Geometry G} `{Binary64.NumPy}.

(** The group [g] passes both filters of the selector over floats, with
    temporal value [v]: the temporal value is the float [v] above 0, the
    overlap values computed for the entries of the group are the ratios
    [overlap_ratio64] of the entries, each entry counted by itself, and
    their sum is not below [min_overlap_pct]. *)
Definition qualifies64 (aoi_geom : G) (target_date : datetime)
    (max_diff_hours min_overlap_pct : Binary64.float)
    (g : datetime * list (entry G)) (v : Q) : Prop :=
  Binary64._value_date (fst g) target_date max_diff_hours
    = Ok (Binary64.Fin v)
  /\ (0 < v)%Q
  /\ Binary64.overlap_loop aoi_geom (snd g) []
     = Ok (map (overlap_ratio64 aoi_geom) (snd g))
  /\ Binary64.f_ltb
       (Binary64.np_sum (map (overlap_ratio64 aoi_geom) (snd g)))
       min_overlap_pct = false.

(** [first_best64 d g v]: as [first_best], for the selector over floats. *)
Definition first_best64 (aoi_geom : G) (target_date : datetime)
    (max_diff_hours min_overlap_pct : Binary64.float) (d : date_groups_t G)
    (g : datetime * list (entry G)) (v : Q) : Prop :=
  exists before after,
    d = before ++ g :: after
    /\ qualifies64 aoi_geom target_date max_diff_hours min_overlap_pct g v
    /\ (forall g' v', In g' before ->
          qualifies64 aoi_geom target_date max_diff_hours min_overlap_pct
            g' v' ->
          (v' < v)%Q)
    /\ (forall g' v', In g' after ->
          qualifies64 aoi_geom target_date max_diff_hours min_overlap_pct
            g' v' ->
          (v' <= v)%Q).

(** The invariant of the selection loop over floats after the groups
    [seen]. *)
Definition scanned64 (aoi_geom : G) (target_date : datetime)
    (max_diff_hours min_overlap_pct : Binary64.float) (seen : date_groups_t G)
    (best : Binary64.best_t G) : Prop :=
  (best = (Binary64.Fin 0, None)
   /\ forall g v, In g seen ->
        ~ qualifies64 aoi_geom target_date max_diff_hours min_overlap_pct g v)
  \/ (exists g v,
        best = (Binary64.Fin v, Some (snd g))
        /\ first_best64 aoi_geom target_date max_diff_hours min_overlap_pct
             seen g v).

End Vocabulary64.

(** ** A geometry for worked scenarios: axis-parallel rectangles *)

Record box : Type := mkBox { xmin : Q; ymin : Q; xmax : Q; ymax : Q }.

Definition Qmax' (x y : Q) : Q := if Qlt_le_dec x y then y else x.
Definition Qmin' (x y : Q) : Q := if Qlt_le_dec x y then x else y.

Definition box_intersection (a b : box) : box :=
  mkBox (Qmax' (xmin a) (xmin b)) (Qmax' (ymin a) (ymin b))
        (Qmin' (xmax a) (xmax b)) (Qmin' (ymax a) (ymax b)).

Definition box_area (b : box) : Q :=
  if Qlt_le_dec (xmin b) (xmax b) then
    if Qlt_le_dec (ymin b) (ymax b)
    then Qred ((xmax b - xmin b) * (ymax b - ymin b))
    else 0
  else 0.

#[export] Instance box_Geometry : Geometry box := {
  intersection := box_intersection;
  area := box_area
}.

(** Microseconds in [n] hours. *)
Definition hours (n : Z) : Z := n * 3600000000.

Definition naive (w : Z) : datetime := mkDatetime w None.
Definition utc (w : Z) : datetime := mkDatetime w (Some 0).

(** The area of interest of the scenarios: the unit square times ten. *)
Definition aoi10 : box := mkBox 0 0 10 10.

(** An entry of one hour around [mid] hours, sensed over [x0, x1] x [0, 10]. *)
Definition pass (mid : Z) (x0 x1 : Q) : entry box :=
  mkEntry (naive (hours mid - hours 1 / 2)) (naive (hours mid + hours 1 / 2))
          (mkBox x0 0 x1 10).

(** Scenario B: a group 10 hours off covering half the area of interest and
    a group 40 hours off covering nine tenths of it. *)
Definition scenario_B : list (entry box) := [pass 40 0 9; pass 10 0 5].

(** Scenario C: one group 60 hours off. *)
Definition scenario_C : list (entry box) := [pass 60 0 10].

(** An entry whose start is naive and whose end is aware. *)
Definition mixed_entry : entry box :=
  mkEntry (naive 0) (utc (hours 1)) aoi10.

(** An entry from 9999-12-31 23:00 at UTC+14:00 to 9999-12-31 23:00 at
    UTC-14:00: 28 hours long, its midpoint after [datetime.max]. *)
Definition late_entry : entry box :=
  mkEntry (mkDatetime (datetime_max - 3599999999) (Some (hours 14)))
          (mkDatetime (datetime_max - 3599999999) (Some (hours (-14))))
          aoi10.

(** Two entries of one pass, each covering the whole area of interest. *)
Definition doubled : list (entry box) := [pass 0 0 10; pass 0 0 10].

(** The rectangles with the float nearest to their area, and a sum that
    adds the values to 0.0 in their order, as [np.sum] adds a list of fewer
    than eight floats, for worked scenarios in floats. *)
#[export] Instance box_Geometry64 : Binary64.Geometry box := {
  Binary64.intersection := box_intersection;
  Binary64.area b := Binary64.rnd (box_area b)
}.

Definition sum_in_order (l : list Binary64.float) : Binary64.float :=
  fold_left Binary64.f_add l (Binary64.Fin 0).

#[export] Instance NumPy_in_order : Binary64.NumPy := {
  Binary64.np_sum := sum_in_order
}.

(** 2020-01-01 00:00:00 and 2025-04-26 06:08:55.434790 on the wall clock,
    and the float 46614.14873188611. *)
Definition new_year_2020 : Z := 1577836800000000.
Definition april_2025 : Z := new_year_2020 + 167810935434790.
Definition cutoff_46614 : Q := 6406599818698583 # 137438953472.

(** 2021-06-01 00:00:00 and 2024-08-14 00:18:21.776340 on the wall clock,
    and the float 28080.306048983333. *)
Definition june_2021 : Z := 1622505600000000.
Definition august_2024 : Z := june_2021 + 101089101776340.
Definition cutoff_28080 : Q := 7718655753091481 # 274877906944.

(** 2027-01-16 12:20:05.460280 on the wall clock and the float
    61740.33485007778. *)
Definition january_2027 : Z := new_year_2020 + 222265205460280.
Definition cutoff_61740 : Q := 2121381752201385 # 34359738368.

(** An entry of one hour around [us] microseconds that covers the area of
    interest, and two passes 100 and 0 microseconds from the epoch. *)
Definition pass_at (us : Z) : entry box :=
  mkEntry (naive (us - hours 1 / 2)) (naive (us + hours 1 / 2)) aoi10.

Definition tied : list (entry box) := [pass_at 100; pass_at 0].

(** Four entries of one pass that cover 10, 20, 20 and 20 seventieths of
    an area of interest of width 70. *)
Definition aoi70 : box := mkBox 0 0 70 10.
Definition sevenths : list (entry box) :=
  [pass 0 0 10; pass 0 10 30; pass 0 30 50; pass 0 50 70].

(** * Properties *)

(** ** Fallible computations *)

Lemma bind_Ok {A B : Type} (c : result A) (k : A -> result B) (b : B) :
  bind c k = Ok b -> exists a, c = Ok a /\ k a = Ok b.
Proof.
  destruct c as [a|e]; simpl; intros Hk; [exists a; auto | discriminate].
Qed.

Lemma py_div_Ok (x y : Q) : ~ (y == 0)%Q -> py_div x y = Ok (x / y)%Q.
Proof.
  intros Hy. unfold py_div.
  destruct (Qeq_bool y 0) eqn:E; [|reflexivity].
  apply Qeq_bool_eq in E. contradiction.
Qed.

Lemma py_div_zero (x y : Q) : (y == 0)%Q -> py_div x y = Err ZeroDivisionError.
Proof.
  intros Hy. unfold py_div. now rewrite (Qeq_eq_bool _ _ Hy).
Qed.

(** ** The temporal scorer *)

Lemma abs_hours_nonneg (d : timedelta) : (0 <= abs_hours d)%Q.
Proof. apply Qabs_nonneg. Qed.

Lemma abs_hours_opp (d : timedelta) : abs_hours (- d) = abs_hours d.
Proof.
  unfold abs_hours, total_seconds, Qdiv, Qmult, Qabs, inject_Z. simpl.
  f_equal. lia.
Qed.

Lemma abs_hours_zero : (abs_hours 0%Z == 0)%Q.
Proof. reflexivity. Qed.

Lemma value_of_ddiff_opp (d : timedelta) (m : Q) :
  value_of_ddiff (- d) m = value_of_ddiff d m.
Proof. unfold value_of_ddiff. now rewrite abs_hours_opp. Qed.

Lemma value_of_ddiff_far (d : timedelta) (m : Q) :
  (m < abs_hours d)%Q -> value_of_ddiff d m = Ok 0%Q.
Proof.
  intros Hlt. unfold value_of_ddiff.
  destruct (Qlt_le_dec m (abs_hours d)) as [_|Hle]; [reflexivity|].
  exfalso. apply (Qlt_not_le _ _ Hlt Hle).
Qed.

Lemma value_of_ddiff_near (d : timedelta) (m : Q) :
  (abs_hours d <= m)%Q -> ~ (m == 0)%Q ->
  value_of_ddiff d m = Ok ((m - abs_hours d) / m)%Q.
Proof.
  intros Hle Hm. unfold value_of_ddiff.
  destruct (Qlt_le_dec m (abs_hours d)) as [Hlt|_].
  - exfalso. apply (Qlt_not_le _ _ Hlt Hle).
  - now apply py_div_Ok.
Qed.

Lemma value_of_ddiff_range (d : timedelta) (m v : Q) :
  value_of_ddiff d m = Ok v -> (0 <= v <= 1)%Q.
Proof.
  unfold value_of_ddiff.
  destruct (Qlt_le_dec m (abs_hours d)) as [Hlt|Hle].
  - intros [= <-]. split; [apply Qle_refl | discriminate].
  - unfold py_div. destruct (Qeq_bool m 0) eqn:E; [discriminate|].
    intros [= <-].
    assert (Hne : ~ (m == 0)%Q) by (apply Qeq_bool_neq; exact E).
    pose proof (abs_hours_nonneg d) as H0.
    assert (Hpos : (0 < m)%Q) by lra.
    split.
    + apply Qle_shift_div_l; [exact Hpos | lra].
    + apply Qle_shift_div_r; [exact Hpos | lra].
Qed.

Lemma value_of_ddiff_total (d : timedelta) (m : Q) :
  (0 < m)%Q -> exists v, value_of_ddiff d m = Ok v.
Proof.
  intros Hm. destruct (Qlt_le_dec m (abs_hours d)) as [Hlt|Hle].
  - exists 0%Q. now apply value_of_ddiff_far.
  - eexists. apply value_of_ddiff_near; [exact Hle | lra].
Qed.

Lemma value_of_ddiff_antitone (d1 d2 : timedelta) (m v1 v2 : Q) :
  (abs_hours d1 <= abs_hours d2)%Q ->
  value_of_ddiff d1 m = Ok v1 -> value_of_ddiff d2 m = Ok v2 -> (v2 <= v1)%Q.
Proof.
  intros Hle H1 H2.
  pose proof (value_of_ddiff_range _ _ _ H1) as [Hv1 _].
  revert H1 H2. unfold value_of_ddiff.
  destruct (Qlt_le_dec m (abs_hours d2)) as [Hlt2|Hle2].
  - intros _ [= <-]. exact Hv1.
  - destruct (Qlt_le_dec m (abs_hours d1)) as [Hlt1|Hle1]; [lra|].
    unfold py_div. destruct (Qeq_bool m 0) eqn:E; [discriminate|].
    intros [= <-] [= <-].
    assert (Hne : ~ (m == 0)%Q) by (apply Qeq_bool_neq; exact E).
    pose proof (abs_hours_nonneg d1) as H0.
    unfold Qdiv. apply Qmult_le_compat_r; [lra|].
    apply Qinv_le_0_compat. lra.
Qed.

(** The subtraction of two datetimes, with its fallback, never raises. *)
Lemma try_subtract_datetime (a b : datetime) :
  try_subtract a b = Ok (elapsed a b).
Proof.
  unfold try_subtract, elapsed. simpl. unfold datetime_sub.
  destruct a as [wa [oa|]], b as [wb [ob|]]; simpl; try reflexivity.
  destruct (oa =? ob) eqn:E; [|f_equal; lia].
  apply Z.eqb_eq in E. subst. f_equal. lia.
Qed.

Lemma elapsed_swap (a b : datetime) : elapsed b a = - elapsed a b.
Proof.
  unfold elapsed. destruct (tzinfo a), (tzinfo b); lia.
Qed.

Lemma value_date_datetime (a b : datetime) (m : Q) :
  _value_date a b m = value_of_ddiff (elapsed a b) m.
Proof. unfold _value_date. now rewrite try_subtract_datetime. Qed.

Lemma value_date_range {T : Type} `{Timestamp T} (a b : T) (m v : Q) :
  _value_date a b m = Ok v -> (0 <= v <= 1)%Q.
Proof.
  unfold _value_date. intros Hv.
  apply bind_Ok in Hv as (d & _ & Hd).
  exact (value_of_ddiff_range _ _ _ Hd).
Qed.

(** C7: the temporal scorer is symmetric in its two dates, whether the
    subtraction succeeds directly or through the timezone fallback. *)
Theorem value_date_symmetric (overpass_date target_date : datetime)
    (max_diff_hours : Q) :
  _value_date overpass_date target_date max_diff_hours
  = _value_date target_date overpass_date max_diff_hours.
Proof.
  rewrite !value_date_datetime, (elapsed_swap overpass_date target_date).
  now rewrite value_of_ddiff_opp.
Qed.

Lemma sub_mismatch (a b : datetime) :
  tz_mismatch a b -> datetime_sub a b = Err TypeError.
Proof.
  unfold tz_mismatch, aware, datetime_sub.
  destruct (tzinfo a), (tzinfo b); intros Hne; try reflexivity;
    now contradiction Hne.
Qed.

Lemma sub_TypeError_mismatch (a b : datetime) (e : exn) :
  datetime_sub a b = Err e -> e = TypeError /\ tz_mismatch a b.
Proof.
  unfold tz_mismatch, aware, datetime_sub.
  destruct (tzinfo a), (tzinfo b); try destruct (_ =? _);
    intros [= <-]; split; trivial; discriminate.
Qed.

(** A failure of the single retry is the failure of the scorer. *)
Lemma value_date_retry_fails {T : Type} `{Timestamp T} (a b : T) (m : Q)
    (e : exn) :
  ts_sub a b = Err TypeError ->
  ts_sub (ts_replace_tzinfo_None a) (ts_replace_tzinfo_None b) = Err e ->
  _value_date a b m = Err e.
Proof.
  intros H1 H2. unfold _value_date, try_subtract. now rewrite H1, H2.
Qed.

(** C8: when exactly one of two datetimes is aware, the direct subtraction
    raises [TypeError], the subtraction of the two naive copies succeeds and
    the scorer continues with it; for any kind of timestamp, after a
    [TypeError] the scorer is the single retry on the naive copies followed
    by the scoring, so an error of the retry is the error of the scorer. *)
Theorem value_date_tz_fallback :
  (forall (a b : datetime) (m : Q),
      tz_mismatch a b ->
      ts_sub a b = Err TypeError
      /\ ts_sub (ts_replace_tzinfo_None a) (ts_replace_tzinfo_None b)
         = Ok (wall a - wall b)
      /\ _value_date a b m = value_of_ddiff (wall a - wall b) m)
  /\ (forall (T : Type) (TS : Timestamp T) (a b : T) (m : Q),
        ts_sub a b = Err TypeError ->
        _value_date a b m
        = bind (ts_sub (ts_replace_tzinfo_None a) (ts_replace_tzinfo_None b))
               (fun ddiff => value_of_ddiff ddiff m)).
Proof.
  split.
  - intros a b m Hmis. simpl.
    split; [now apply sub_mismatch|]. split; [reflexivity|].
    unfold _value_date, try_subtract. simpl.
    now rewrite (sub_mismatch _ _ Hmis).
  - intros T TS a b m Hsub. unfold _value_date, try_subtract.
    now rewrite Hsub.
Qed.

Lemma value_date_tz_fallback_witness :
  tz_mismatch (utc (hours 10)) (naive 0)
  /\ _value_date (utc (hours 10)) (naive 0) 48
     = value_of_ddiff (hours 10 - 0) 48
  /\ _value_date (naive 0) (utc (hours 10)) 48
     = bind (ts_sub (ts_replace_tzinfo_None (naive 0))
                    (ts_replace_tzinfo_None (utc (hours 10))))
            (fun ddiff => value_of_ddiff ddiff 48).
Proof.
  split; [discriminate|]. split.
  - apply (proj1 value_date_tz_fallback (utc (hours 10)) (naive 0) 48%Q).
    discriminate.
  - apply (proj2 value_date_tz_fallback datetime _ (naive 0) (utc (hours 10)) 48%Q).
    reflexivity.
Defined.

(** ** Equality of dictionary keys *)

Lemma datetime_eqb_refl (a : datetime) : datetime_eqb a a = true.
Proof.
  unfold datetime_eqb. destruct (tzinfo a); apply Z.eqb_refl.
Qed.

Lemma datetime_eqb_sym (a b : datetime) : datetime_eqb a b = datetime_eqb b a.
Proof.
  unfold datetime_eqb. destruct (tzinfo a), (tzinfo b); trivial;
    apply Z.eqb_sym.
Qed.

Lemma datetime_eqb_trans (a b c : datetime) :
  datetime_eqb a b = true -> datetime_eqb b c = true -> datetime_eqb a c = true.
Proof.
  unfold datetime_eqb.
  destruct (tzinfo a), (tzinfo b), (tzinfo c); try discriminate;
    rewrite !Z.eqb_eq; lia.
Qed.

Lemma datetime_eqb_false_l (a b c : datetime) :
  datetime_eqb a b = true -> datetime_eqb a c = false -> datetime_eqb b c = false.
Proof.
  intros Hab Hac. destruct (datetime_eqb b c) eqn:Hbc; [|reflexivity].
  now rewrite (datetime_eqb_trans a b c Hab Hbc) in Hac.
Qed.

Lemma filter_none {A : Type} (f : A -> bool) (l : list A) :
  (forall x, In x l -> f x = false) -> filter f l = [].
Proof.
  induction l as [|x l IH]; simpl; intros Hall; [reflexivity|].
  rewrite (Hall x (or_introl eq_refl)). apply IH.
  intros y Hy. apply Hall. now right.
Qed.

(** ** The grouper *)

Section GrouperFacts.

Context {G : Type} `{Geometry G}.

Implicit Types (d : date_groups_t G) (e : entry G) (k m : datetime).

Lemma midpoint_sub e :
  same_awareness e ->
  datetime_sub (end_date e) (start_date e)
  = Ok (elapsed (end_date e) (start_date e)).
Proof.
  unfold same_awareness, datetime_sub, elapsed, aware.
  destruct (tzinfo (start_date e)) as [o1|], (tzinfo (end_date e)) as [o2|];
    try discriminate; intros _; [|reflexivity].
  destruct (o2 =? o1) eqn:E; [|f_equal; lia].
  apply Z.eqb_eq in E. subst. f_equal. lia.
Qed.

Lemma midpoint_Ok e : well_dated e -> exists m, midpoint e = Ok m.
Proof.
  intros [Hsame Hrange]. unfold midpoint, _average_datetime.
  rewrite (midpoint_sub e Hsame). simpl. unfold datetime_add.
  fold (midpoint_wall e). rewrite Hrange. simpl. eauto.
Qed.

Lemma midpoint_value e :
  well_dated e ->
  midpoint e = Ok (mkDatetime (midpoint_wall e) (tzinfo (start_date e))).
Proof.
  intros [Hsame Hrange]. unfold midpoint, _average_datetime.
  rewrite (midpoint_sub e Hsame). simpl. unfold datetime_add.
  fold (midpoint_wall e). now rewrite Hrange.
Qed.


Lemma midpoint_Ok_well_dated e m : midpoint e = Ok m -> well_dated e.
Proof.
  unfold midpoint, _average_datetime. intros Hm.
  apply bind_Ok in Hm as (dt & Hs & Hm).
  assert (Hsame : same_awareness e).
  { unfold same_awareness, datetime_sub, aware in *.
    destruct (tzinfo (start_date e)), (tzinfo (end_date e));
      try discriminate; reflexivity. }
  rewrite (midpoint_sub e Hsame) in Hs. injection Hs as <-.
  split; [exact Hsame|]. unfold datetime_add in Hm. fold (midpoint_wall e) in Hm.
  now destruct (in_range (midpoint_wall e)).
Qed.

Lemma has_key_midpoint k e m :
  midpoint e = Ok m -> has_key k e = datetime_eqb k m.
Proof. unfold has_key. now intros ->. Qed.

(** *** One insertion *)

Lemma dict_append_In d m e k g :
  distinct_keys d -> In (k, g) (dict_append d m e) ->
  (In (k, g) d /\ datetime_eqb k m = false)
  \/ (exists g0, In (k, g0) d /\ datetime_eqb k m = true /\ g = g0 ++ [e])
  \/ (k = m /\ g = [e]
      /\ forall k' g', In (k', g') d -> datetime_eqb k' m = false).
Proof.
  induction d as [|[k0 g0] d IH]; simpl; intros Hd Hin.
  - destruct Hin as [[= <- <-]|[]]. right; right. repeat split; tauto.
  - destruct Hd as [Hk0 Hd].
    destruct (datetime_eqb k0 m) eqn:E; simpl in Hin.
    + destruct Hin as [[= <- <-]|Hin].
      * right; left. exists g0. auto.
      * left. split; [now right|].
        rewrite datetime_eqb_sym.
        apply datetime_eqb_false_l with k0; [exact E | exact (Hk0 k g Hin)].
    + destruct Hin as [[= <- <-]|Hin].
      * left. auto.
      * destruct (IH Hd Hin) as [[H1 H2]|[(g1 & H1 & H2 & H3)|(H1 & H2 & H3)]].
        -- left. auto.
        -- right; left. exists g1. auto.
        -- right; right. repeat split; trivial.
           intros k' g' [[= <- <-]|Hin']; [exact E | eauto].
Qed.

Lemma dict_append_key d m e k g :
  In (k, g) d -> exists g', In (k, g') (dict_append d m e).
Proof.
  induction d as [|[k0 g0] d IH]; simpl; intros Hin; [contradiction|].
  destruct (datetime_eqb k0 m) eqn:E.
  - destruct Hin as [[= <- <-]|Hin]; simpl; eauto.
  - destruct Hin as [[= <- <-]|Hin]; simpl; eauto.
    destruct (IH Hin) as [g' Hg']. eauto.
Qed.

Lemma dict_append_new d m e :
  exists k g, In (k, g) (dict_append d m e) /\ datetime_eqb k m = true.
Proof.
  induction d as [|[k0 g0] d IH]; simpl.
  - exists m, [e]. split; [now left | apply datetime_eqb_refl].
  - destruct (datetime_eqb k0 m) eqn:E.
    + exists k0, (g0 ++ [e]). split; [now left | exact E].
    + destruct IH as (k & g & Hin & Hk). exists k, g. split; [now right | exact Hk].
Qed.

Lemma dict_append_distinct d m e :
  distinct_keys d -> distinct_keys (dict_append d m e).
Proof.
  induction d as [|[k0 g0] d IH]; simpl; intros Hd.
  - split; [intros ? ? [] | exact I].
  - destruct Hd as [Hk0 Hd]. destruct (datetime_eqb k0 m) eqn:E; simpl.
    + split; assumption.
    + split; [|now apply IH].
      intros k' g' Hin.
      destruct (dict_append_In d m e k' g' Hd Hin)
        as [[H1 _]|[(g1 & H1 & _ & _)|(-> & _ & _)]]; eauto.
Qed.

Lemma dict_append_concat d m e :
  Permutation (concat (map snd (dict_append d m e)))
              (concat (map snd d) ++ [e]).
Proof.
  induction d as [|[k0 g0] d IH]; simpl; [reflexivity|].
  destruct (datetime_eqb k0 m); simpl.
  - rewrite <- !app_assoc. apply Permutation_app_head, Permutation_app_comm.
  - rewrite <- app_assoc. now apply Permutation_app_head.
Qed.

(** *** The invariant of the grouping loop *)

Lemma grouped_nil : grouped (G := G) [] [].
Proof.
  repeat split; simpl; try contradiction. constructor.
Qed.

Lemma grouped_step seen d e m :
  grouped seen d -> midpoint e = Ok m ->
  grouped (seen ++ [e]) (dict_append d m e).
Proof.
  intros (Hdist & Hcont & Hcompl & Hperm) Hm.
  split; [now apply dict_append_distinct|].
  split; [|split].
  - intros k g Hin. rewrite filter_app. simpl.
    rewrite (has_key_midpoint k e m Hm).
    destruct (dict_append_In d m e k g Hdist Hin)
      as [[H1 H2]|[(g0 & H1 & H2 & ->)|(-> & -> & H3)]].
    + rewrite H2, app_nil_r. now apply Hcont.
    + rewrite H2. destruct (Hcont k g0 H1) as [_ <-].
      split; [|reflexivity]. now destruct g0.
    + rewrite datetime_eqb_refl. split; [discriminate|].
      rewrite filter_none; [reflexivity|].
      intros e' He'. destruct (Hcompl e' He') as (k' & g' & Hin' & Hk').
      unfold has_key in *. destruct (midpoint e') as [m'|]; [|reflexivity].
      destruct (datetime_eqb m m') eqn:E; [|reflexivity].
      rewrite <- (H3 k' g' Hin'). symmetry.
      apply datetime_eqb_trans with m'; [exact Hk'|].
      now rewrite datetime_eqb_sym.
  - intros e' He'. apply in_app_or in He' as [He'|[<-|[]]].
    + destruct (Hcompl e' He') as (k & g & Hin & Hk).
      destruct (dict_append_key d m e k g Hin) as [g' Hg']. eauto.
    + destruct (dict_append_new d m e) as (k & g & Hin & Hk).
      exists k, g. now rewrite (has_key_midpoint k e m Hm).
  - rewrite dict_append_concat. now apply Permutation_app_tail.
Qed.

Lemma group_loop_grouped es : forall seen d d',
  grouped seen d -> group_loop d es = Ok d' -> grouped (seen ++ es) d'.
Proof.
  induction es as [|e es IH]; simpl; intros seen d d' Hg Hloop.
  - injection Hloop as <-. now rewrite app_nil_r.
  - apply bind_Ok in Hloop as (m & Hm & Hloop).
    replace (seen ++ e :: es) with ((seen ++ [e]) ++ es)
      by now rewrite <- app_assoc.
    apply IH with (dict_append d m e); [|exact Hloop].
    now apply grouped_step.
Qed.

Lemma group_loop_total es : forall d,
  (forall e, In e es -> well_dated e) -> exists d', group_loop d es = Ok d'.
Proof.
  induction es as [|e es IH]; simpl; intros d Hall; [eauto|].
  destruct (midpoint_Ok e (Hall e (or_introl eq_refl))) as [m Hm].
  unfold midpoint in Hm. rewrite Hm. simpl. apply IH. auto.
Qed.

Lemma group_loop_Ok_well_dated es : forall d d',
  group_loop d es = Ok d' -> forall e, In e es -> well_dated e.
Proof.
  induction es as [|e es IH]; simpl; intros d d' Hloop e' He'; [contradiction|].
  apply bind_Ok in Hloop as (m & Hm & Hloop).
  destruct He' as [<-|He']; [|eauto].
  exact (midpoint_Ok_well_dated e m Hm).
Qed.

Lemma group_entries_grouped es d :
  group_entries_by_date es = Ok d -> grouped es d.
Proof.
  intros Hd. exact (group_loop_grouped es [] [] d grouped_nil Hd).
Qed.

End GrouperFacts.

(** ** The spatial scorer and the selector *)

Section SelectorFacts.

Context {G : Type} `{Geometry G}.

Variables (aoi_geom : G) (target_date : datetime).
Variables (max_diff_hours min_overlap_pct : Q).

Implicit Types (d : date_groups_t G) (g : datetime * list (entry G)).
Implicit Types (best : best_t G) (v : Q).

Local Notation qual :=
  (qualifies aoi_geom target_date max_diff_hours min_overlap_pct).
Local Notation fbest :=
  (first_best aoi_geom target_date max_diff_hours min_overlap_pct).
Local Notation inv :=
  (scanned aoi_geom target_date max_diff_hours min_overlap_pct).
Local Notation step d :=
  (scan_group d aoi_geom target_date max_diff_hours min_overlap_pct).
Local Notation run d :=
  (scan d aoi_geom target_date max_diff_hours min_overlap_pct).

Lemma value_overlap_Ok (footprint_geom : G) :
  ~ (area aoi_geom == 0)%Q ->
  _value_overlap footprint_geom aoi_geom
  = Ok (area (intersection aoi_geom footprint_geom) / area aoi_geom)%Q.
Proof. intros Ha. unfold _value_overlap. now apply py_div_Ok. Qed.

Lemma overlap_loop_Ok (es : list (entry G)) : forall acc,
  ~ (area aoi_geom == 0)%Q ->
  overlap_loop aoi_geom es acc = Ok (acc ++ map (overlap_ratio aoi_geom) es).
Proof.
  induction es as [|e es IH]; simpl; intros acc Ha.
  - now rewrite app_nil_r.
  - rewrite (value_overlap_Ok _ Ha). simpl.
    rewrite (IH _ Ha), <- app_assoc. reflexivity.
Qed.

Lemma overlap_loop_area (es : list (entry G)) (acc l : list Q) :
  overlap_loop aoi_geom es acc = Ok l -> es <> [] -> ~ (area aoi_geom == 0)%Q.
Proof.
  destruct es as [|e es]; [now intros _ []|]. simpl. intros Hl _.
  apply bind_Ok in Hl as (v & Hv & _).
  unfold _value_overlap, py_div in Hv.
  destruct (Qeq_bool (area aoi_geom) 0) eqn:E; [discriminate|].
  now apply Qeq_bool_neq.
Qed.

Lemma overlap_loop_zero_area (es : list (entry G)) (acc : list Q) :
  (area aoi_geom == 0)%Q -> es <> [] ->
  overlap_loop aoi_geom es acc = Err ZeroDivisionError.
Proof.
  intros Ha. destruct es as [|e es]; [now intros []|]. intros _. simpl.
  unfold _value_overlap. now rewrite (py_div_zero _ _ Ha).
Qed.

Lemma qualifies_fun g v v' : qual g v -> qual g v' -> v = v'.
Proof. intros [H1 _] [H2 _]. congruence. Qed.

Lemma qualifies_nonzero g v :
  qual g v -> snd g <> [] ->
  ~ (max_diff_hours == 0)%Q /\ ~ (area aoi_geom == 0)%Q.
Proof.
  intros (Hv & Hpos & l & Hl & _) Hne. split.
  - intros Hm. rewrite value_date_datetime in Hv.
    unfold value_of_ddiff in Hv.
    destruct (Qlt_le_dec _ _) as [_|_].
    + injection Hv as <-. now apply Qlt_irrefl in Hpos.
    + now rewrite (py_div_zero _ _ Hm) in Hv.
  - exact (overlap_loop_area _ _ _ Hl Hne).
Qed.

(** For a group with entries, passing both filters reads: the temporal value
    is above 0, the area of interest has an area, and the overlap values of
    the entries sum to [min_overlap_pct] or more. *)
Lemma qualifies_iff g v :
  snd g <> [] ->
  qual g v
  <-> _value_date (fst g) target_date max_diff_hours = Ok v
      /\ (0 < v)%Q
      /\ ~ (area aoi_geom == 0)%Q
      /\ (min_overlap_pct <= np_sum (map (overlap_ratio aoi_geom) (snd g)))%Q.
Proof.
  intros Hne. split.
  - intros Hq. destruct (qualifies_nonzero g v Hq Hne) as [_ Ha].
    destruct Hq as (Hv & Hpos & l & Hl & Hsum).
    rewrite (overlap_loop_Ok _ _ Ha) in Hl. injection Hl as <-. auto.
  - intros (Hv & Hpos & Ha & Hsum). split; [exact Hv|]. split; [exact Hpos|].
    exists (map (overlap_ratio aoi_geom) (snd g)).
    split; [exact (overlap_loop_Ok _ _ Ha) | exact Hsum].
Qed.

Lemma dict_getitem_distinct (k : datetime) (es : list (entry G)) after :
  forall before,
    distinct_keys (before ++ (k, es) :: after) ->
    dict_getitem (before ++ (k, es) :: after) k = es.
Proof.
  induction before as [|[k0 g0] before IH]; simpl.
  - now rewrite datetime_eqb_refl.
  - intros [Hk0 Hd].
    rewrite (Hk0 k es); [now apply IH|].
    apply in_or_app. right. now left.
Qed.

(** *** The invariant of the selection loop *)

Lemma first_best_extend seen g g' v :
  fbest seen g v -> (forall v', qual g' v' -> (v' <= v)%Q) ->
  fbest (seen ++ [g']) g v.
Proof.
  intros (before & after & -> & Hq & Hb & Ha) Hle.
  exists before, (after ++ [g']).
  split; [now rewrite <- app_assoc|].
  split; [exact Hq|]. split; [exact Hb|].
  intros g1 v1 Hin Hq1.
  apply in_app_or in Hin as [Hin|[<-|[]]]; eauto.
Qed.

Lemma scanned_extend seen best g' :
  inv seen best -> (forall v', qual g' v' -> (v' <= fst best)%Q) ->
  inv (seen ++ [g']) best.
Proof.
  intros [[-> Hnone]|(g & Hg & Hfb)] Hle.
  - left. split; [reflexivity|].
    intros g1 v1 Hin Hq1.
    apply in_app_or in Hin as [Hin|[<-|[]]]; [now apply (Hnone g1 v1)|].
    pose proof (Hle v1 Hq1) as Hv1. destruct Hq1 as (_ & Hpos & _).
    simpl in Hv1. apply (Qlt_not_le _ _ Hpos Hv1).
  - right. exists g. split; [exact Hg|]. now apply first_best_extend.
Qed.

Lemma scanned_bound seen best g v :
  inv seen best -> In g seen -> qual g v -> (v <= fst best)%Q.
Proof.
  intros [[-> Hnone]|(g0 & _ & before & after & -> & Hq & Hb & Ha)] Hin Hqv.
  - now destruct (Hnone g v Hin).
  - apply in_app_or in Hin as [Hin|[<-|Hin]].
    + apply Qlt_le_weak. eauto.
    + rewrite (qualifies_fun _ _ _ Hqv Hq). apply Qle_refl.
    + eauto.
Qed.

Lemma scanned_update seen best g v :
  inv seen best -> qual g v -> (fst best < v)%Q ->
  inv (seen ++ [g]) (v, Some (snd g)).
Proof.
  intros Hinv Hq Hlt. right. exists g. split; [reflexivity|].
  exists seen, [].
  split; [reflexivity|]. split; [exact Hq|]. split; [|intros ? ? []].
  intros g' v' Hin Hq'.
  apply Qle_lt_trans with (fst best); [|exact Hlt].
  exact (scanned_bound _ _ _ _ Hinv Hin Hq').
Qed.

Lemma scanned_nonneg seen best : inv seen best -> (0 <= fst best)%Q.
Proof.
  intros [[-> _]|(g & _ & _ & _ & _ & (_ & Hpos & _) & _)];
    [apply Qle_refl | now apply Qlt_le_weak].
Qed.

Lemma scan_group_scanned d before k es after best best' :
  distinct_keys d -> d = before ++ (k, es) :: after ->
  inv before best -> step d best k = Ok best' ->
  inv (before ++ [(k, es)]) best'.
Proof.
  intros Hd Heq Hinv. unfold scan_group. destruct best as [bv be].
  destruct (_value_date k target_date max_diff_hours) as [v|x] eqn:Hv;
    simpl; [|discriminate].
  pose proof (value_date_range _ _ _ _ Hv) as [Hv0 _].
  destruct (Qeq_bool v 0) eqn:E0.
  { intros [= <-]. apply scanned_extend; [exact Hinv|].
    intros v' (Hv' & Hpos & _). simpl in Hv'. rewrite Hv in Hv'.
    injection Hv' as <-. apply Qeq_bool_eq in E0.
    rewrite E0 in Hpos. now apply Qlt_irrefl in Hpos. }
  apply Qeq_bool_neq in E0.
  rewrite Heq, dict_getitem_distinct by (rewrite <- Heq; exact Hd).
  destruct (overlap_loop aoi_geom es []) as [l|x] eqn:Hl;
    simpl; [|discriminate].
  destruct (Qlt_le_dec (np_sum l) min_overlap_pct) as [Hlow|Hok].
  { intros [= <-]. apply scanned_extend; [exact Hinv|].
    intros v' (_ & _ & l' & Hl' & Hsum). simpl in Hl'. rewrite Hl in Hl'.
    injection Hl' as <-. destruct (Qlt_not_le _ _ Hlow Hsum). }
  assert (Hq : qual (k, es) v).
  { split; [exact Hv|]. split; [|eauto].
    destruct (Qle_lt_or_eq _ _ Hv0) as [Hpos|Hz]; [exact Hpos|].
    destruct E0. now symmetry. }
  destruct (Qlt_le_dec bv v) as [Hlt|Hle].
  - intros [= <-]. exact (scanned_update _ _ _ _ Hinv Hq Hlt).
  - intros [= <-]. apply scanned_extend; [exact Hinv|].
    intros v' Hq'. now rewrite (qualifies_fun _ _ _ Hq' Hq).
Qed.

Lemma scan_scanned d after : forall before best best',
  distinct_keys d -> d = before ++ after ->
  inv before best -> run d (dict_keys after) best = Ok best' ->
  inv d best'.
Proof.
  induction after as [|[k es] after IH]; simpl;
    intros before best best' Hd Heq Hinv Hrun.
  - injection Hrun as <-. now rewrite Heq, app_nil_r.
  - apply bind_Ok in Hrun as (best1 & Hstep & Hrun).
    apply IH with (before ++ [(k, es)]) best1; trivial.
    + now rewrite <- app_assoc.
    + exact (scan_group_scanned d before k es after best best1
               Hd Heq Hinv Hstep).
Qed.

Lemma scanned_start : inv [] (0%Q, None).
Proof. left. split; [reflexivity | intros ? ? []]. Qed.

(** *** Which errors the loops can raise *)





(** *** When the loop body returns *)





(** *** The first best group is unique *)

Lemma app_cons_split {A : Type} (x y : A) (a1 a2 : list A) : forall b1 b2,
  b1 ++ x :: a1 = b2 ++ y :: a2 ->
  (b1 = b2 /\ x = y /\ a1 = a2)
  \/ (In x b2 /\ In y a1) \/ (In y b1 /\ In x a2).
Proof.
  induction b1 as [|z b1 IH]; intros [|w b2]; simpl; intros Heq;
    injection Heq as -> Heq.
  - left. auto.
  - right; left. subst a1. split; [now left|].
    apply in_or_app. right. now left.
  - right; right. subst a2. split; [now left|].
    apply in_or_app. right. now left.
  - destruct (IH b2 Heq) as [(-> & -> & ->)|[[H1 H2]|[H1 H2]]]; tauto.
Qed.


Lemma first_best_In d g v : fbest d g v -> In g d /\ qual g v.
Proof.
  intros (b & a & -> & Hq & _). split; [|exact Hq].
  apply in_or_app. right. now left.
Qed.

(** *** The selector as a whole *)

Lemma get_best_overpass_Ok (entries : list (entry G)) r :
  get_best_overpass entries aoi_geom target_date max_diff_hours min_overlap_pct
    = Ok r ->
  exists d g v,
    group_entries_by_date entries = Ok d /\ r = Some (snd g) /\ fbest d g v.
Proof.
  unfold get_best_overpass. intros Hr.
  apply bind_Ok in Hr as (d & Hd & Hr).
  apply bind_Ok in Hr as ([bv be] & Hrun & Hr).
  destruct (Qeq_bool bv 0) eqn:E0; [discriminate|]. injection Hr as <-.
  destruct (group_entries_grouped _ _ Hd) as (Hdist & _).
  destruct (scan_scanned d d [] _ _ Hdist eq_refl scanned_start Hrun)
    as [[[= -> ->] _]|(g & Hg & Hfb)]; [discriminate|].
  exists d, g, bv. auto.
Qed.


End SelectorFacts.

(** ** Sums of overlap values *)

Lemma fold_left_Qplus (l : list Q) : forall a,
  (fold_left Qplus l a == a + fold_left Qplus l 0)%Q.
Proof.
  induction l as [|x l IH]; simpl; intros a; [ring|].
  rewrite (IH (a + x)%Q), (IH (0 + x)%Q). ring.
Qed.

Lemma np_sum_cons (x : Q) (l : list Q) : (np_sum (x :: l) == x + np_sum l)%Q.
Proof. unfold np_sum. simpl. rewrite fold_left_Qplus. ring. Qed.

(** ** The selector when the cutoff is zero *)

Section ZeroCutoff.

Context {G : Type} `{Geometry G}.

Variables (d : date_groups_t G) (aoi_geom : G) (target_date : datetime).
Variables (max_diff_hours min_overlap_pct : Q).

Hypothesis cutoff_zero : (max_diff_hours == 0)%Q.

Lemma value_of_ddiff_zero_cutoff :
  value_of_ddiff 0%Z max_diff_hours = Err ZeroDivisionError.
Proof.
  unfold value_of_ddiff.
  destruct (Qlt_le_dec max_diff_hours (abs_hours 0%Z)) as [Hlt|_].
  - rewrite cutoff_zero, abs_hours_zero in Hlt. now apply Qlt_irrefl in Hlt.
  - now apply py_div_zero.
Qed.

Lemma scan_group_zero_cutoff (best : best_t G) (k : datetime) :
  scan_group d aoi_geom target_date max_diff_hours min_overlap_pct best k
  = Ok best
  \/ scan_group d aoi_geom target_date max_diff_hours min_overlap_pct best k
     = Err ZeroDivisionError.
Proof.
  unfold scan_group. destruct best as [bv be].
  rewrite value_date_datetime. unfold value_of_ddiff.
  destruct (Qlt_le_dec _ _); simpl; [now left|].
  right. now rewrite (py_div_zero _ _ cutoff_zero).
Qed.

Lemma scan_group_at_target (best : best_t G) (k : datetime) :
  elapsed k target_date = 0 ->
  scan_group d aoi_geom target_date max_diff_hours min_overlap_pct best k
  = Err ZeroDivisionError.
Proof.
  intros Hk. unfold scan_group. destruct best as [bv be].
  now rewrite value_date_datetime, Hk, value_of_ddiff_zero_cutoff.
Qed.

Lemma scan_zero_cutoff (keys : list datetime) : forall best k,
  In k keys -> elapsed k target_date = 0 ->
  scan d aoi_geom target_date max_diff_hours min_overlap_pct keys best
  = Err ZeroDivisionError.
Proof.
  induction keys as [|k0 keys IH]; simpl; intros best k Hin Hk;
    [contradiction|].
  destruct (Z.eq_dec (elapsed k0 target_date) 0) as [H0|H0].
  - now rewrite (scan_group_at_target best k0 H0).
  - destruct Hin as [->|Hin]; [contradiction|].
    destruct (scan_group_zero_cutoff best k0) as [-> | ->]; simpl;
      [exact (IH best k Hin Hk) | reflexivity].
Qed.

End ZeroCutoff.

Lemma distinct_keys_inj {G : Type} (d : date_groups_t G) :
  forall k g k' g',
    distinct_keys d -> In (k, g) d -> In (k', g') d ->
    datetime_eqb k k' = true -> (k, g) = (k', g').
Proof.
  induction d as [|[k0 g0] d IH]; simpl; intros k g k' g' Hdist Hin Hin' He;
    [contradiction|].
  destruct Hdist as [Hk0 Hd].
  destruct Hin as [[= <- <-]|Hin], Hin' as [[= <- <-]|Hin'].
  - reflexivity.
  - now rewrite (Hk0 k' g' Hin') in He.
  - rewrite datetime_eqb_sym, (Hk0 k g Hin) in He. discriminate.
  - exact (IH k g k' g' Hd Hin Hin' He).
Qed.


(** * The grouper: partition by midpoint *)

(** C4 (as amended): when the two dates of every entry are both naive or
    both aware and the midpoint of the entry is a date that [datetime] can
    hold, the grouper returns a mapping with pairwise different keys in
    which the group of a key is exactly the input entries whose midpoint
    equals the key, in input order; the midpoint of an entry is its start
    date moved by half the timedelta [end_date - start_date] (to the
    microsecond, a tie going to the even one), in the timezone of the start
    date; every entry
    lies in the group keyed by its midpoint and in no other group, entries
    of one group have equal midpoints, and the groups together hold the
    input entries, each as often as the input does. *)
Theorem grouper_partitions {G : Type} (parsed_entries : list (entry G)) :
  (forall e, In e parsed_entries -> well_dated e) ->
  exists d,
    group_entries_by_date parsed_entries = Ok d
    /\ distinct_keys d
    /\ (forall k g, In (k, g) d -> g = filter (has_key k) parsed_entries)
    /\ (forall e, In e parsed_entries ->
          exists k g m dt,
            In (k, g) d /\ midpoint e = Ok m
            /\ datetime_sub (end_date e) (start_date e) = Ok dt
            /\ wall m = wall (start_date e) + timedelta_div dt 2
            /\ tzinfo m = tzinfo (start_date e)
            /\ datetime_eqb k m = true /\ In e g)
    /\ (forall e k g k' g',
          In (k, g) d -> In (k', g') d -> In e g -> In e g' ->
          (k, g) = (k', g'))
    /\ (forall e e' k g m m',
          In (k, g) d -> In e g -> In e' g ->
          midpoint e = Ok m -> midpoint e' = Ok m' ->
          datetime_eqb m m' = true)
    /\ Permutation (concat (map snd d)) parsed_entries.
Proof.
  intros Hall.
  destruct (group_loop_total parsed_entries [] Hall) as [d Hd].
  destruct (group_entries_grouped _ _ Hd) as (Hdist & Hcont & Hcompl & Hperm).
  assert (Hkey : forall e k g, In (k, g) d -> In e g -> has_key k e = true).
  { intros e k g Hin He. destruct (Hcont k g Hin) as [_ Hg].
    rewrite Hg in He. now apply filter_In in He. }
  exists d. split; [exact Hd|]. split; [exact Hdist|].
  split; [intros k g Hin; now apply Hcont|].
  split; [|split; [|split]]; trivial.
  - intros e He. destruct (Hcompl e He) as (k & g & Hin & Hk).
    pose proof (midpoint_value e (Hall e He)) as Hm.
    exists k, g, (mkDatetime (midpoint_wall e) (tzinfo (start_date e))),
      (elapsed (end_date e) (start_date e)).
    rewrite <- (has_key_midpoint k e _ Hm).
    split; [exact Hin|]. split; [exact Hm|].
    split; [exact (midpoint_sub e (proj1 (Hall e He)))|].
    repeat split; trivial.
    destruct (Hcont k g Hin) as [_ ->]. apply filter_In. auto.
  - intros e k g k' g' Hin Hin' He He'.
    apply (distinct_keys_inj d); trivial.
    pose proof (Hkey e k g Hin He) as H1.
    pose proof (Hkey e k' g' Hin' He') as H2.
    unfold has_key in H1, H2. destruct (midpoint e) as [m|]; [|discriminate].
    apply datetime_eqb_trans with m; [exact H1|].
    now rewrite datetime_eqb_sym.
  - intros e e' k g m m' Hin He He' Hm Hm'.
    pose proof (Hkey e k g Hin He) as H1.
    pose proof (Hkey e' k g Hin He') as H2.
    rewrite (has_key_midpoint k e m Hm) in H1.
    rewrite (has_key_midpoint k e' m' Hm') in H2.
    apply datetime_eqb_trans with k; [|exact H2].
    now rewrite datetime_eqb_sym.
Qed.

Lemma grouper_partitions_witness :
  exists d,
    group_entries_by_date (scenario_B ++ doubled) = Ok d
    /\ Permutation (concat (map snd d)) (scenario_B ++ doubled).
Proof.
  destruct (grouper_partitions (scenario_B ++ doubled)) as (d & Hd & Hrest).
  - intros e [<-|[<-|[<-|[<-|[]]]]]; split; reflexivity.
  - exists d. split; [exact Hd | apply Hrest].
Defined.

(** The grouper raises on an entry that starts naive and ends aware, and
    on an entry of two aware dates whose midpoint lies after
    [datetime.max]. *)
Lemma grouper_raises_on_bad_dates :
  group_entries_by_date [mixed_entry] = Err TypeError
  /\ (same_awareness late_entry
      /\ group_entries_by_date [late_entry] = Err OverflowError).
Proof. split; [|split]; reflexivity. Qed.

(** * The selector *)







(** C9: every group that the grouper produces holds at least one entry, and
    whenever the selector returns, it returns a list (never [None]) with at
    least one entry. *)
Theorem best_overpass_nonempty {G : Type} `{Geometry G}
    (parsed_entries : list (entry G)) (aoi_geom : G) (target_date : datetime)
    (max_diff_hours min_overlap_pct : Q) :
  (forall d k g,
      group_entries_by_date parsed_entries = Ok d -> In (k, g) d -> g <> [])
  /\ (forall r,
        get_best_overpass parsed_entries aoi_geom target_date
          max_diff_hours min_overlap_pct = Ok r ->
        exists es, r = Some es /\ es <> []).
Proof.
  split.
  - intros d k g Hd Hin.
    destruct (group_entries_grouped _ _ Hd) as (_ & Hcont & _).
    exact (proj1 (Hcont k g Hin)).
  - intros r Hr.
    destruct (get_best_overpass_Ok _ _ _ _ _ _ Hr)
      as (d & [k es] & v & Hd & -> & Hfb).
    exists es. split; [reflexivity|].
    destruct (group_entries_grouped _ _ Hd) as (_ & Hcont & _).
    exact (proj1 (Hcont k es (proj1 (first_best_In _ _ _ _ _ _ _ Hfb)))).
Qed.

Lemma best_overpass_nonempty_witness :
  exists es, Some [pass 10 0 5] = Some es /\ es <> [].
Proof.
  apply (proj2 (best_overpass_nonempty scenario_B aoi10 (naive 0) 48 (3 # 10))).
  reflexivity.
Defined.

(** C10: with [max_diff_hours] equal to 0 and a difference of 0 the temporal
    scorer raises [ZeroDivisionError]; and when some group's date is at no
    distance from the target, the selector raises that error rather than
    returning or raising the error of line 119. *)
Theorem zero_cutoff_divides_by_zero :
  (forall (T : Type) (TS : Timestamp T) (overpass_date target_date : T)
      (max_diff_hours : Q),
      (max_diff_hours == 0)%Q ->
      try_subtract overpass_date target_date = Ok 0 ->
      _value_date overpass_date target_date max_diff_hours
      = Err ZeroDivisionError)
  /\ (forall (G : Type) (Geo : Geometry G) (parsed_entries : list (entry G))
        (aoi_geom : G) (target_date : datetime)
        (max_diff_hours min_overlap_pct : Q)
        (d : date_groups_t G) (k : datetime) (es : list (entry G)),
        (max_diff_hours == 0)%Q ->
        group_entries_by_date parsed_entries = Ok d ->
        In (k, es) d -> elapsed k target_date = 0 ->
        get_best_overpass parsed_entries aoi_geom target_date
          max_diff_hours min_overlap_pct
        = Err ZeroDivisionError).
Proof.
  split.
  - intros T TS overpass_date target_date max_diff_hours Hm Hsub.
    unfold _value_date. rewrite Hsub. simpl.
    now apply value_of_ddiff_zero_cutoff.
  - intros G Geo parsed_entries aoi_geom target_date max_diff_hours
      min_overlap_pct d k es Hm Hd Hin Hk.
    unfold get_best_overpass. rewrite Hd. simpl.
    rewrite (scan_zero_cutoff d aoi_geom target_date max_diff_hours
               min_overlap_pct Hm (dict_keys d) (0%Q, None) k);
      [reflexivity| |exact Hk].
    unfold dict_keys. change k with (fst (k, es)). now apply in_map.
Qed.

Lemma zero_cutoff_divides_by_zero_witness :
  _value_date (utc (hours 60)) (naive (hours 60)) 0 = Err ZeroDivisionError
  /\ get_best_overpass scenario_C aoi10 (naive (hours 60)) 0 (3 # 10)
     = Err ZeroDivisionError.
Proof.
  split.
  - apply (proj1 zero_cutoff_divides_by_zero datetime _
             (utc (hours 60)) (naive (hours 60)) 0%Q); reflexivity.
  - apply (proj2 zero_cutoff_divides_by_zero box _ scenario_C aoi10
             (naive (hours 60)) 0%Q (3 # 10)%Q
             [(naive (hours 60), scenario_C)] (naive (hours 60)) scenario_C).
    + reflexivity.
    + reflexivity.
    + now left.
    + reflexivity.
Defined.

(** * Binary64 arithmetic *)

Section Rounding.

Import Binary64.

(** ** Rounding to the nearest integer *)

Lemma Qfloor_spec (x : Q) (z : Z) :
  (inject_Z z <= x)%Q -> (x < inject_Z (z + 1))%Q -> Qfloor x = z.
Proof.
  intros H1 H2.
  pose proof (Qfloor_le x) as H3. pose proof (Qlt_floor x) as H4.
  assert (Ha : (inject_Z z < inject_Z (Qfloor x + 1))%Q) by lra.
  assert (Hb : (inject_Z (Qfloor x) < inject_Z (z + 1))%Q) by lra.
  rewrite <- Zlt_Qlt in Ha, Hb. lia.
Qed.

Lemma round_half_even_comp (x y : Q) :
  (x == y)%Q -> round_half_even x = round_half_even y.
Proof.
  intros E. unfold round_half_even.
  assert (Ef : Qfloor (x + (1 # 2)) = Qfloor (y + (1 # 2))) by now rewrite E.
  rewrite Ef.
  assert (Eb : Qeq_bool (inject_Z (Qfloor (y + (1 # 2)))) (x + (1 # 2))
               = Qeq_bool (inject_Z (Qfloor (y + (1 # 2)))) (y + (1 # 2))).
  { destruct (Qeq_bool _ (y + (1 # 2))) eqn:E1.
    - apply Qeq_bool_eq in E1. apply Qeq_eq_bool. rewrite E1, E. reflexivity.
    - destruct (Qeq_bool _ (x + (1 # 2))) eqn:E2; [|reflexivity].
      apply Qeq_bool_eq in E2. rewrite E in E2.
      now rewrite (Qeq_eq_bool _ _ E2) in E1. }
  now rewrite Eb.
Qed.

Lemma round_half_even_Z (z : Z) : round_half_even (inject_Z z) = z.
Proof.
  unfold round_half_even.
  assert (Ef : Qfloor (inject_Z z + (1 # 2)) = z).
  { apply Qfloor_spec; [lra|]. rewrite inject_Z_plus.
    change (inject_Z 1) with 1%Q. lra. }
  rewrite Ef.
  destruct (Qeq_bool (inject_Z z) (inject_Z z + (1 # 2))) eqn:E;
    [|reflexivity].
  apply Qeq_bool_eq in E. lra.
Qed.

Lemma round_half_even_near (x : Q) :
  (inject_Z (round_half_even x) - (1 # 2) <= x
   <= inject_Z (round_half_even x) + (1 # 2))%Q.
Proof.
  unfold round_half_even.
  pose proof (Qfloor_le (x + (1 # 2))) as H1.
  pose proof (Qlt_floor (x + (1 # 2))) as H2.
  rewrite inject_Z_plus in H2. change (inject_Z 1) with 1%Q in H2.
  destruct (Qeq_bool _ _ && _) eqn:E.
  - apply andb_true_iff in E as [E _]. apply Qeq_bool_eq in E.
    unfold Z.sub. rewrite inject_Z_plus, inject_Z_opp.
    change (inject_Z 1) with 1%Q. lra.
  - lra.
Qed.

Lemma round_half_even_mono (x y : Q) :
  (x <= y)%Q -> round_half_even x <= round_half_even y.
Proof.
  intros Hxy.
  destruct (Qeq_dec x y) as [E|N];
    [rewrite (round_half_even_comp x y E); lia|].
  assert (Hlt : (x < y)%Q) by (apply Qle_lt_or_eq in Hxy as [|]; tauto).
  assert (Hf : Qfloor (x + (1 # 2)) <= Qfloor (y + (1 # 2)))
    by (apply Qfloor_resp_le; lra).
  unfold round_half_even.
  pose proof (Qfloor_le (x + (1 # 2))) as H1.
  pose proof (Qlt_floor (x + (1 # 2))) as H2.
  pose proof (Qfloor_le (y + (1 # 2))) as H3.
  rewrite inject_Z_plus in H2. change (inject_Z 1) with 1%Q in H2.
  destruct (Qeq_bool (inject_Z (Qfloor (y + (1 # 2)))) (y + (1 # 2))
            && Z.odd (Qfloor (y + (1 # 2)))) eqn:Ey.
  - apply andb_true_iff in Ey as [Ey _]. apply Qeq_bool_eq in Ey.
    assert (Hs : Qfloor (x + (1 # 2)) < Qfloor (y + (1 # 2))).
    { rewrite Zlt_Qlt. lra. }
    clear - Hs. destruct (_ && _); lia.
  - clear - Hf. destruct (_ && _); lia.
Qed.

Lemma two_pow_pos (k : Z) : (0 < 2 ^ k)%Q.
Proof. apply Qpower_0_lt. reflexivity. Qed.

Lemma two_pow_le (k l : Z) : k <= l -> (2 ^ k <= 2 ^ l)%Q.
Proof. intros H. apply Qpower_le_compat_l; [exact H | discriminate]. Qed.

Lemma two_pow_plus (k l : Z) : (2 ^ (k + l) == 2 ^ k * 2 ^ l)%Q.
Proof. apply Qpower_plus. discriminate. Qed.

Lemma two_pow_Z (k : Z) : 0 <= k -> (inject_Z (2 ^ k) == 2 ^ k)%Q.
Proof. intros H. now rewrite Zpower_Qpower. Qed.

Lemma ilog2_bounds (a : Q) :
  (0 < a)%Q ->
  let k0 := Z.log2 (Qnum a) - Z.log2 (Zpos (Qden a)) in
  (2 ^ (k0 - 1) < a /\ a < 2 ^ (k0 + 1))%Q.
Proof.
  intros Ha k0.
  assert (Hn : 0 < Qnum a) by (destruct a as [n d]; unfold Qlt in Ha; simpl in *; lia).
  destruct (Z.log2_spec (Qnum a) Hn) as [Hn1 Hn2].
  destruct (Z.log2_spec (Zpos (Qden a)) eq_refl) as [Hd1 Hd2].
  pose proof (Z.log2_nonneg (Qnum a)) as Hln.
  pose proof (Z.log2_nonneg (Zpos (Qden a))) as Hld.
  set (ln := Z.log2 (Qnum a)) in *. set (ld := Z.log2 (Zpos (Qden a))) in *.
  assert (HaD : (a * inject_Z (Zpos (Qden a)) == inject_Z (Qnum a))%Q).
  { destruct a as [n d]. unfold Qeq, Qmult, inject_Z. simpl. lia. }
  assert (HD : (0 < inject_Z (Zpos (Qden a)))%Q) by reflexivity.
  rewrite Zle_Qle, two_pow_Z in Hn1, Hd1 by lia.
  rewrite Zlt_Qlt, two_pow_Z in Hn2, Hd2 by lia.
  pose proof (two_pow_pos (k0 - 1)) as HL. pose proof (two_pow_pos (k0 + 1)) as HP.
  split.
  - apply (Qmult_lt_r _ _ _ HD). rewrite HaD.
    apply Qlt_le_trans with (2 ^ (k0 - 1) * 2 ^ Z.succ ld)%Q.
    + apply Qmult_lt_l; assumption.
    + rewrite <- two_pow_plus. replace (k0 - 1 + Z.succ ld) with ln by (unfold k0; lia).
      exact Hn1.
  - apply (Qmult_lt_r _ _ _ HD). rewrite HaD.
    apply Qlt_le_trans with (2 ^ (k0 + 1) * 2 ^ ld)%Q.
    + rewrite <- two_pow_plus. replace (k0 + 1 + ld) with (Z.succ ln) by (unfold k0; lia).
      exact Hn2.
    + apply Qmult_le_l; assumption.
Qed.

Lemma ilog2_spec (a : Q) :
  (0 < a)%Q -> (2 ^ ilog2 a <= a /\ a < 2 ^ (ilog2 a + 1))%Q.
Proof.
  intros Ha. destruct (ilog2_bounds a Ha) as [H1 H2]. unfold ilog2.
  set (k0 := Z.log2 (Qnum a) - Z.log2 (Zpos (Qden a))) in *.
  destruct (Qle_bool (2 ^ k0) a) eqn:E.
  - apply Qle_bool_iff in E. auto.
  - replace (k0 - 1 + 1) with k0 by lia. split; [now apply Qlt_le_weak|].
    apply Qnot_le_lt. intros Hle. apply Qle_bool_iff in Hle. congruence.
Qed.

Lemma two_pow_lt_inv (k l : Z) : (2 ^ k < 2 ^ l)%Q -> k < l.
Proof.
  intros H. destruct (Z_lt_le_dec k l) as [|Hle]; [assumption|].
  pose proof (two_pow_le l k Hle). lra.
Qed.

Lemma ilog2_mono (a b : Q) : (0 < a)%Q -> (a <= b)%Q -> ilog2 a <= ilog2 b.
Proof.
  intros Ha Hab.
  destruct (ilog2_spec a Ha) as [A1 A2].
  destruct (ilog2_spec b ltac:(lra)) as [B1 B2].
  assert (H : (2 ^ ilog2 a < 2 ^ (ilog2 b + 1))%Q) by lra.
  apply two_pow_lt_inv in H. lia.
Qed.

Lemma ulp_exp_mono (a b : Q) : (0 < a)%Q -> (a <= b)%Q -> ulp_exp a <= ulp_exp b.
Proof.
  intros Ha Hab. unfold ulp_exp. pose proof (ilog2_mono a b Ha Hab). lia.
Qed.

Lemma scaled_mono (a b : Q) (e : Z) :
  (a <= b)%Q ->
  (inject_Z (round_half_even (a / 2 ^ e)) * 2 ^ e
   <= inject_Z (round_half_even (b / 2 ^ e)) * 2 ^ e)%Q.
Proof.
  intros Hab. pose proof (two_pow_pos e) as He.
  apply Qmult_le_compat_r; [|lra].
  rewrite <- Zle_Qle. apply round_half_even_mono.
  unfold Qdiv. apply Qmult_le_compat_r; [exact Hab|].
  apply Qinv_le_0_compat. lra.
Qed.

Lemma rnd_val_lower (b : Q) :
  (0 < b)%Q -> -1074 < ulp_exp b ->
  (2 ^ 52 * 2 ^ ulp_exp b <= rnd_val b)%Q.
Proof.
  intros Hb He. unfold rnd_val. set (e := ulp_exp b) in *.
  pose proof (two_pow_pos e) as Hpe.
  apply Qmult_le_compat_r; [|lra].
  assert (E52 : (2 ^ 52 == inject_Z (2 ^ 52))%Q) by (now rewrite two_pow_Z).
  rewrite E52, <- Zle_Qle.
  rewrite <- (round_half_even_Z (2 ^ 52)) at 1.
  apply round_half_even_mono. rewrite <- E52.
  apply Qle_shift_div_l; [exact Hpe|].
  rewrite <- two_pow_plus.
  destruct (ilog2_spec b Hb) as [B1 _].
  replace (52 + e) with (ilog2 b) by (unfold e, ulp_exp in *; lia).
  exact B1.
Qed.

Lemma rnd_val_upper (a : Q) :
  (0 < a)%Q -> (rnd_val a <= 2 ^ 53 * 2 ^ ulp_exp a)%Q.
Proof.
  intros Ha. unfold rnd_val. set (e := ulp_exp a) in *.
  pose proof (two_pow_pos e) as Hpe.
  apply Qmult_le_compat_r; [|lra].
  assert (E53 : (2 ^ 53 == inject_Z (2 ^ 53))%Q) by (now rewrite two_pow_Z).
  rewrite E53, <- Zle_Qle.
  rewrite <- (round_half_even_Z (2 ^ 53)) at 1.
  apply round_half_even_mono. rewrite <- E53.
  apply Qle_shift_div_r; [exact Hpe|].
  rewrite <- two_pow_plus.
  destruct (ilog2_spec a Ha) as [_ A2].
  apply Qlt_le_weak. apply Qlt_le_trans with (1 := A2).
  apply two_pow_le. unfold e, ulp_exp. lia.
Qed.

Lemma rnd_val_mono (a b : Q) :
  (0 < a)%Q -> (a <= b)%Q -> (rnd_val a <= rnd_val b)%Q.
Proof.
  intros Ha Hab. pose proof (ulp_exp_mono a b Ha Hab) as He.
  destruct (Z.eq_dec (ulp_exp a) (ulp_exp b)) as [E|N].
  - unfold rnd_val. rewrite E. now apply scaled_mono.
  - assert (Hlt : ulp_exp a + 1 <= ulp_exp b) by lia.
    assert (Hb : -1074 < ulp_exp b) by (unfold ulp_exp in *; lia).
    apply Qle_trans with (2 ^ 53 * 2 ^ ulp_exp a)%Q;
      [now apply rnd_val_upper|].
    apply Qle_trans with (2 ^ 52 * 2 ^ ulp_exp b)%Q;
      [|apply rnd_val_lower; [lra | exact Hb]].
    apply Qle_trans with (2 ^ 52 * 2 ^ (ulp_exp a + 1))%Q.
    + rewrite two_pow_plus. change (2 ^ 53)%Q with (2 ^ 52 * 2 ^ 1)%Q.
      change (2 ^ 1)%Q with 2%Q. lra.
    + apply Qmult_le_l; [apply two_pow_pos | now apply two_pow_le].
Qed.

Lemma rnd_val_nonneg (a : Q) : (0 <= a)%Q -> (0 <= rnd_val a)%Q.
Proof.
  intros Ha. unfold rnd_val. pose proof (two_pow_pos (ulp_exp a)) as He.
  apply Qmult_le_0_compat; [|lra].
  change 0%Q with (inject_Z 0). rewrite <- Zle_Qle.
  rewrite <- (round_half_even_Z 0). apply round_half_even_mono.
  change (inject_Z 0) with 0%Q. apply Qle_shift_div_l; lra.
Qed.

Lemma ilog2_unique (a : Q) (k : Z) :
  (2 ^ k <= a)%Q -> (a < 2 ^ (k + 1))%Q -> ilog2 a = k.
Proof.
  intros H1 H2. pose proof (two_pow_pos k) as Hk.
  destruct (ilog2_spec a ltac:(lra)) as [A1 A2].
  assert (Ha : (2 ^ k < 2 ^ (ilog2 a + 1))%Q) by lra.
  assert (Hb : (2 ^ ilog2 a < 2 ^ (k + 1))%Q) by lra.
  apply two_pow_lt_inv in Ha, Hb. lia.
Qed.

Lemma ilog2_comp (a b : Q) : (0 < a)%Q -> (a == b)%Q -> ilog2 a = ilog2 b.
Proof.
  intros Ha E. destruct (ilog2_spec a Ha) as [A1 A2].
  symmetry. apply ilog2_unique; rewrite <- E; assumption.
Qed.

Lemma rnd_val_comp (a b : Q) :
  (0 < a)%Q -> (a == b)%Q -> (rnd_val a == rnd_val b)%Q.
Proof.
  intros Ha E. unfold rnd_val, ulp_exp. rewrite (ilog2_comp a b Ha E).
  now rewrite (round_half_even_comp (a / _) (b / _)) by now rewrite E.
Qed.

Lemma rnd_pos_comp (a b : Q) :
  (0 < a)%Q -> (a == b)%Q -> rnd_pos a = rnd_pos b.
Proof.
  intros Ha E. unfold rnd_pos. pose proof (rnd_val_comp a b Ha E) as Ev.
  assert (Eb : Qle_bool (2 ^ 1024) (rnd_val a) = Qle_bool (2 ^ 1024) (rnd_val b)).
  { destruct (Qle_bool _ (rnd_val b)) eqn:E1.
    - apply Qle_bool_iff. apply Qle_bool_iff in E1. now rewrite Ev.
    - destruct (Qle_bool _ (rnd_val a)) eqn:E2; [|reflexivity].
      apply Qle_bool_iff in E2. rewrite Ev in E2.
      apply Qle_bool_iff in E2. congruence. }
  cbv zeta. rewrite Eb.
  destruct (Qle_bool (2 ^ 1024) (rnd_val b)); [reflexivity|].
  f_equal. now apply Qred_complete.
Qed.

Lemma rnd_of_pos (a : Q) : (0 < a)%Q -> rnd a = rnd_pos a.
Proof.
  intros H. unfold rnd.
  destruct (a ?= 0)%Q eqn:C;
    [apply Qeq_alt in C; lra | apply Qlt_alt in C; lra | reflexivity].
Qed.

Lemma rnd_of_neg (a : Q) : (a < 0)%Q -> rnd a = f_neg (rnd_pos (- a)).
Proof.
  intros H. unfold rnd.
  destruct (a ?= 0)%Q eqn:C;
    [apply Qeq_alt in C; lra | reflexivity | apply Qgt_alt in C; lra].
Qed.

Lemma rnd_of_zero (a : Q) : (a == 0)%Q -> rnd a = Fin 0.
Proof.
  intros H. unfold rnd.
  destruct (a ?= 0)%Q eqn:C;
    [reflexivity | apply Qlt_alt in C; lra | apply Qgt_alt in C; lra].
Qed.

Lemma rnd_comp (a b : Q) : (a == b)%Q -> rnd a = rnd b.
Proof.
  intros E. destruct (Q_dec a 0) as [[Hlt|Hgt]|Heq].
  - rewrite (rnd_of_neg a), (rnd_of_neg b) by lra.
    f_equal. apply rnd_pos_comp; [lra | now rewrite E].
  - rewrite (rnd_of_pos a), (rnd_of_pos b) by lra.
    now apply rnd_pos_comp.
  - rewrite (rnd_of_zero a), (rnd_of_zero b) by lra. reflexivity.
Qed.

Lemma rnd_zero : rnd 0 = Fin 0.
Proof. reflexivity. Qed.

Lemma rnd_one : rnd 1 = Fin 1.
Proof. vm_compute. reflexivity. Qed.

Lemma rnd_pos_mono (a b : Q) :
  (0 < a)%Q -> (a <= b)%Q -> f_leb (rnd_pos a) (rnd_pos b) = true.
Proof.
  intros Ha Hab. pose proof (rnd_val_mono a b Ha Hab) as Hm.
  unfold rnd_pos.
  destruct (Qle_bool (2 ^ 1024) (rnd_val b)) eqn:Eb;
    destruct (Qle_bool (2 ^ 1024) (rnd_val a)) eqn:Ea; cbn [f_leb]; trivial.
  - apply Qle_bool_iff in Ea.
    assert (Hb : (2 ^ 1024 <= rnd_val b)%Q) by lra.
    apply Qle_bool_iff in Hb. congruence.
  - apply Qle_bool_iff. now rewrite !Qred_correct.
Qed.

Lemma rnd_pos_nonneg (a : Q) :
  (0 < a)%Q -> f_leb (Fin 0) (rnd_pos a) = true.
Proof.
  intros Ha. unfold rnd_pos. destruct (Qle_bool _ _); cbn [f_leb];
    [reflexivity|].
  apply Qle_bool_iff. rewrite Qred_correct. apply rnd_val_nonneg. lra.
Qed.

Lemma f_leb_neg (x y : float) :
  f_leb x y = true -> f_leb (f_neg y) (f_neg x) = true.
Proof.
  destruct x as [a| | |], y as [b| | |]; cbn [f_leb f_neg]; trivial.
  rewrite !Qle_bool_iff, !Qred_correct. intros H. lra.
Qed.

Lemma f_leb_trans (x y z : float) :
  f_leb x y = true -> f_leb y z = true -> f_leb x z = true.
Proof.
  destruct x as [a| | |], y as [b| | |], z as [c| | |]; cbn [f_leb]; trivial;
    try discriminate.
  rewrite !Qle_bool_iff. intros. lra.
Qed.

Lemma rnd_nonneg (a : Q) : (0 <= a)%Q -> f_leb (Fin 0) (rnd a) = true.
Proof.
  intros Ha. destruct (Qle_lt_or_eq _ _ Ha) as [H|H].
  - rewrite rnd_of_pos by exact H. now apply rnd_pos_nonneg.
  - rewrite rnd_of_zero by (now symmetry). reflexivity.
Qed.

Lemma rnd_nonpos (a : Q) : (a <= 0)%Q -> f_leb (rnd a) (Fin 0) = true.
Proof.
  intros Ha. destruct (Qle_lt_or_eq _ _ Ha) as [H|H].
  - rewrite rnd_of_neg by exact H.
    change (Fin 0) with (f_neg (Fin 0)). apply f_leb_neg.
    apply rnd_pos_nonneg. lra.
  - rewrite rnd_of_zero by exact H. reflexivity.
Qed.

Lemma rnd_mono (a b : Q) : (a <= b)%Q -> f_leb (rnd a) (rnd b) = true.
Proof.
  intros Hab. destruct (Qlt_le_dec 0 a) as [Ha|Ha].
  - rewrite (rnd_of_pos a), (rnd_of_pos b) by lra. now apply rnd_pos_mono.
  - destruct (Qlt_le_dec b 0) as [Hb|Hb].
    + rewrite (rnd_of_neg a), (rnd_of_neg b) by lra.
      apply f_leb_neg. apply rnd_pos_mono; lra.
    + apply f_leb_trans with (Fin 0);
        [now apply rnd_nonpos | now apply rnd_nonneg].
Qed.

Lemma rnd_not_nan (a : Q) : rnd a <> NaN.
Proof.
  pose proof (rnd_mono a a (Qle_refl a)) as H. intros E. now rewrite E in H.
Qed.

Lemma f_neg_involutive (x : float) :
  (match x with Fin q => Qred q = q | _ => True end) -> f_neg (f_neg x) = x.
Proof.
  destruct x as [q| | |]; cbn [f_neg]; trivial. intros Hq. f_equal.
  transitivity (Qred q); [|exact Hq].
  apply Qred_complete. rewrite Qred_correct. ring.
Qed.

Lemma rnd_pos_canon (a : Q) :
  match rnd_pos a with Fin q => Qred q = q | _ => True end.
Proof.
  unfold rnd_pos. destruct (Qle_bool _ _); [exact I|].
  apply Qred_complete, Qred_correct.
Qed.

Lemma rnd_opp (a : Q) : rnd (- a) = f_neg (rnd a).
Proof.
  destruct (Q_dec a 0) as [[Hlt|Hgt]|Heq].
  - rewrite (rnd_of_pos (- a)), (rnd_of_neg a) by lra.
    now rewrite f_neg_involutive by apply rnd_pos_canon.
  - rewrite (rnd_of_neg (- a)), (rnd_of_pos a) by lra.
    f_equal. apply rnd_pos_comp; [lra | ring].
  - rewrite (rnd_of_zero (- a)), (rnd_of_zero a) by lra. reflexivity.
Qed.

End Rounding.

(** ** The error of one rounding *)

Section RoundingError.

Import Binary64.

Lemma rnd_val_near (a : Q) :
  (0 < a)%Q ->
  (rnd_val a - 2 ^ ulp_exp a * (1 # 2) <= a
   <= rnd_val a + 2 ^ ulp_exp a * (1 # 2))%Q.
Proof.
  intros Ha. unfold rnd_val. set (e := ulp_exp a).
  pose proof (two_pow_pos e) as He.
  pose proof (round_half_even_near (a / 2 ^ e)) as [H1 H2].
  set (n := inject_Z (round_half_even (a / 2 ^ e))) in *.
  assert (E : (a / 2 ^ e * 2 ^ e == a)%Q) by (field; lra).
  apply (Qmult_le_compat_r _ _ (2 ^ e)) in H1; [|lra].
  apply (Qmult_le_compat_r _ _ (2 ^ e)) in H2; [|lra].
  rewrite E in H1, H2. lra.
Qed.

(** In the range of the normal numbers rounding changes a value by at most
    the fraction [2 ^ -53] of it. *)
Lemma rnd_val_error (a : Q) :
  (2 ^ (-1022) <= a)%Q ->
  (a * (1 - (1 # 9007199254740992)) <= rnd_val a
   <= a * (1 + (1 # 9007199254740992)))%Q.
Proof.
  intros Hlo. pose proof (two_pow_pos (-1022)) as Hp.
  assert (Ha : (0 < a)%Q) by lra.
  destruct (ilog2_spec a Ha) as [L1 L2].
  assert (HL : -1022 <= ilog2 a).
  { assert (Hlt : (2 ^ (-1022) < 2 ^ (ilog2 a + 1))%Q) by lra.
    apply two_pow_lt_inv in Hlt. lia. }
  pose proof (rnd_val_near a Ha) as [N1 N2].
  assert (Ee : ulp_exp a = ilog2 a + -52) by (unfold ulp_exp; lia).
  rewrite Ee, two_pow_plus in N1, N2.
  assert (E52 : (2 ^ (-52) == 1 # 4503599627370496)%Q) by reflexivity.
  rewrite E52 in N1, N2.
  pose proof (two_pow_pos (ilog2 a)) as HpL.
  set (p := (2 ^ ilog2 a)%Q) in *. lra.
Qed.

Lemma rnd_error (a : Q) :
  (2 ^ (-1022) <= a)%Q -> (a < 2 ^ 1023)%Q ->
  exists t, rnd a = Fin t
    /\ (a * (1 - (1 # 9007199254740992)) <= t
        <= a * (1 + (1 # 9007199254740992)))%Q.
Proof.
  intros Hlo Hhi. pose proof (two_pow_pos (-1022)) as Hp.
  pose proof (rnd_val_error a Hlo) as [E1 E2].
  rewrite rnd_of_pos by lra. unfold rnd_pos.
  destruct (Qle_bool (2 ^ 1024) (rnd_val a)) eqn:Eb.
  - exfalso. apply Qle_bool_iff in Eb.
    assert (E : (2 ^ 1024 == 2 ^ 1023 * 2)%Q)
      by (change 1024 with (1023 + 1); now rewrite two_pow_plus).
    rewrite E in Eb. lra.
  - exists (Qred (rnd_val a)). split; [reflexivity|].
    rewrite Qred_correct. auto.
Qed.

End RoundingError.

(** ** Order and sign of floats *)

Section FloatOrder.

Import Binary64.

Lemma f_leb_Fin (a b : Q) : f_leb (Fin a) (Fin b) = true <-> (a <= b)%Q.
Proof. apply Qle_bool_iff. Qed.

Lemma f_ltb_Fin (a b : Q) : f_ltb (Fin a) (Fin b) = true <-> (a < b)%Q.
Proof.
  cbn [f_ltb]. destruct (Qlt_le_dec a b) as [H|H]; split; trivial;
    [discriminate | intros H'; lra].
Qed.

Lemma f_ltb_Fin_false (a b : Q) : f_ltb (Fin a) (Fin b) = false <-> (b <= a)%Q.
Proof.
  cbn [f_ltb]. destruct (Qlt_le_dec a b) as [H|H]; split; trivial;
    [discriminate | intros H'; lra].
Qed.

Lemma f_eqb_Fin (a b : Q) : f_eqb (Fin a) (Fin b) = true <-> (a == b)%Q.
Proof. apply Qeq_bool_iff. Qed.

Lemma f_nonneg_inv (x : float) :
  f_leb (Fin 0) x = true -> (exists t, x = Fin t /\ (0 <= t)%Q) \/ x = PInf.
Proof.
  destruct x as [t| | |]; cbn [f_leb]; try discriminate; [|now right].
  intros Ht. left. exists t. split; [reflexivity | now apply Qle_bool_iff].
Qed.

Lemma f_leb_not_nan (x y : float) : f_leb x y = true -> x <> NaN /\ y <> NaN.
Proof. destruct x, y; cbn [f_leb]; intros; split; congruence. Qed.

Lemma f_leb_PInf (x : float) : x <> NaN -> f_leb x PInf = true.
Proof. destruct x; cbn [f_leb]; congruence. Qed.

Lemma f_leb_NInf (x : float) : x <> NaN -> f_leb NInf x = true.
Proof. destruct x; cbn [f_leb]; congruence. Qed.

(** A value between 0 and a float is rounded to a float between them. *)
Lemma rnd_between (x q : Q) :
  (0 <= x <= q)%Q -> is_float (Fin q) ->
  exists t, rnd x = Fin t /\ (0 <= t <= q)%Q.
Proof.
  intros [H0 Hq] Hf. unfold is_float in Hf.
  pose proof (rnd_nonneg x H0) as L. pose proof (rnd_mono x q Hq) as U.
  rewrite Hf in U.
  destruct (rnd x) as [t| | |]; cbn [f_leb] in L, U; try discriminate.
  exists t. rewrite Qle_bool_iff in L, U. auto.
Qed.

Lemma f_div_not_nan (x : float) (q : Q) :
  x <> NaN -> f_div x (Fin q) <> NaN.
Proof.
  destruct x as [a| | |]; cbn [f_div]; intros Hx.
  - apply rnd_not_nan.
  - destruct (Qlt_le_dec 0 q); discriminate.
  - destruct (Qlt_le_dec 0 q); discriminate.
  - congruence.
Qed.

Lemma f_div_mono (x y : float) (q : Q) :
  (0 < q)%Q -> f_leb x y = true ->
  f_leb (f_div x (Fin q)) (f_div y (Fin q)) = true.
Proof.
  intros Hq Hxy. destruct (f_leb_not_nan _ _ Hxy) as [Hx Hy].
  pose proof (f_div_not_nan x q Hx) as Nx.
  pose proof (f_div_not_nan y q Hy) as Ny.
  destruct x as [a| | |], y as [b| | |]; try discriminate; try congruence.
  - cbn [f_div]. apply rnd_mono. apply f_leb_Fin in Hxy.
    unfold Qdiv. apply Qmult_le_compat_r; [exact Hxy|].
    apply Qinv_le_0_compat. lra.
  - replace (f_div PInf (Fin q)) with PInf
      by (cbn [f_div]; now destruct (Qlt_le_dec 0 q); [|lra]).
    now apply f_leb_PInf.
  - replace (f_div PInf (Fin q)) with PInf
      by (cbn [f_div]; now destruct (Qlt_le_dec 0 q); [|lra]).
    reflexivity.
  - replace (f_div NInf (Fin q)) with NInf
      by (cbn [f_div]; now destruct (Qlt_le_dec 0 q); [|lra]).
    now apply f_leb_NInf.
  - replace (f_div NInf (Fin q)) with NInf
      by (cbn [f_div]; now destruct (Qlt_le_dec 0 q); [|lra]).
    now apply f_leb_NInf.
  - replace (f_div NInf (Fin q)) with NInf
      by (cbn [f_div]; now destruct (Qlt_le_dec 0 q); [|lra]).
    now apply f_leb_NInf.
Qed.

Lemma f_div_neg (x : float) (q : Q) :
  (0 < q)%Q -> f_div (f_neg x) (Fin q) = f_neg (f_div x (Fin q)).
Proof.
  intros Hq. destruct x as [a| | |]; cbn [f_neg f_div].
  - rewrite <- rnd_opp. apply rnd_comp. rewrite Qred_correct.
    unfold Qdiv. ring.
  - now destruct (Qlt_le_dec 0 q); [|lra].
  - now destruct (Qlt_le_dec 0 q); [|lra].
  - reflexivity.
Qed.

Lemma f_abs_neg (x : float) : f_abs (f_neg x) = f_abs x.
Proof.
  destruct x as [a| | |]; cbn [f_neg f_abs]; trivial.
  f_equal. apply Qred_complete. rewrite Qred_correct. apply Qabs_opp.
Qed.

Lemma f_abs_mono (x y : float) :
  f_leb (Fin 0) x = true -> f_leb x y = true ->
  f_leb (f_abs x) (f_abs y) = true.
Proof.
  intros H0 Hxy.
  destruct x as [a| | |], y as [b| | |]; try discriminate; trivial.
  apply f_leb_Fin in H0, Hxy. cbn [f_abs]. apply f_leb_Fin.
  rewrite !Qred_correct, !Qabs_pos; lra.
Qed.

End FloatOrder.

(** ** The hours of line 44 *)

Section Hours.

Import Binary64.

Lemma int_true_div_opp (n d : Z) :
  int_true_div (- n) d = f_neg (int_true_div n d).
Proof.
  unfold int_true_div. rewrite <- rnd_opp. apply rnd_comp.
  rewrite inject_Z_opp. unfold Qdiv. ring.
Qed.

Lemma hours_apart_opp (us : Z) : hours_apart (- us) = hours_apart us.
Proof.
  unfold hours_apart.
  rewrite int_true_div_opp, f_div_neg by reflexivity. apply f_abs_neg.
Qed.

Lemma hours_apart_abs (us : Z) : hours_apart (Z.abs us) = hours_apart us.
Proof.
  destruct (Z.abs_spec us) as [[_ ->]|[_ ->]];
    [reflexivity | apply hours_apart_opp].
Qed.

Lemma hours_apart_zero : hours_apart 0 = Fin 0.
Proof. reflexivity. Qed.

Lemma hours_apart_mono_nonneg (u1 u2 : Z) :
  0 <= u1 <= u2 -> f_leb (hours_apart u1) (hours_apart u2) = true.
Proof.
  intros [H0 H12]. unfold hours_apart.
  assert (Hle : f_leb (int_true_div u1 1000000) (int_true_div u2 1000000)
                = true).
  { apply rnd_mono. unfold Qdiv. apply Qmult_le_compat_r; [|discriminate].
    now rewrite <- Zle_Qle. }
  assert (Hpos : f_leb (Fin 0) (int_true_div u1 1000000) = true).
  { apply rnd_nonneg. unfold Qdiv.
    apply Qmult_le_0_compat; [|discriminate].
    change 0%Q with (inject_Z 0). now rewrite <- Zle_Qle. }
  apply f_abs_mono.
  - change (Fin 0) with (f_div (Fin 0) (Fin 3600)).
    now apply f_div_mono.
  - now apply f_div_mono.
Qed.

(** The computed hours do not decrease when the absolute difference grows. *)
Lemma hours_apart_mono (u1 u2 : Z) :
  Z.abs u1 <= Z.abs u2 -> f_leb (hours_apart u1) (hours_apart u2) = true.
Proof.
  intros H. rewrite <- (hours_apart_abs u1), <- (hours_apart_abs u2).
  apply hours_apart_mono_nonneg. lia.
Qed.

Lemma hours_apart_shape (us : Z) :
  (exists t, hours_apart us = Fin t /\ (0 <= t)%Q) \/ hours_apart us = PInf.
Proof.
  apply f_nonneg_inv. rewrite <- hours_apart_zero.
  apply hours_apart_mono. lia.
Qed.

Lemma exact_hours_abs (us : Z) : (exact_hours (Z.abs us) == exact_hours us)%Q.
Proof.
  unfold exact_hours. destruct (Z.abs_spec us) as [[_ ->]|[_ ->]];
    [reflexivity|].
  rewrite inject_Z_opp.
  setoid_replace (- inject_Z us / 3600000000)%Q
    with (- (inject_Z us / 3600000000))%Q by (unfold Qdiv; ring).
  apply Qabs_opp.
Qed.

Lemma normal_range (a : Q) :
  ((1 # 1099511627776) <= a)%Q -> (a < 147573952589676412928)%Q ->
  (2 ^ (-1022) <= a)%Q /\ (a < 2 ^ 1023)%Q.
Proof.
  intros H1 H2.
  pose proof (two_pow_le (-1022) (-40) ltac:(lia)) as P1.
  pose proof (two_pow_le 67 1023 ltac:(lia)) as P2.
  assert (E1 : (2 ^ (-40) == 1 # 1099511627776)%Q) by reflexivity.
  assert (E2 : (2 ^ 67 == 147573952589676412928)%Q) by reflexivity.
  rewrite E1 in P1. rewrite E2 in P2. split.
  - now apply Qle_trans with (1 := P1).
  - now apply Qlt_le_trans with (2 := P2).
Qed.

Lemma hours_apart_error_pos (us : Z) :
  1 <= us < 86400000000000000000 ->
  exists t, hours_apart us = Fin t
    /\ (exact_hours us * (1 - (1 # 2251799813685248)) <= t
        <= exact_hours us * (1 + (1 # 2251799813685248)))%Q.
Proof.
  intros [H1 H2].
  assert (Q1 : (1 <= inject_Z us)%Q)
    by (change 1%Q with (inject_Z 1); now rewrite <- Zle_Qle).
  assert (Q2 : (inject_Z us < 86400000000000000000)%Q)
    by (change 86400000000000000000%Q with (inject_Z 86400000000000000000);
        now rewrite <- Zlt_Qlt).
  remember (inject_Z us / inject_Z 1000000)%Q as x eqn:Dx.
  assert (Ex : (x == inject_Z us * (1 # 1000000))%Q) by now rewrite Dx.
  destruct (normal_range x) as [L1 L2]; [lra | lra |].
  destruct (rnd_error x L1 L2) as (s & Hs & S1 & S2). clear L1 L2.
  destruct (normal_range (s * (1 # 3600))) as [M1 M2]; [lra | lra |].
  destruct (rnd_error (s * (1 # 3600)) M1 M2) as (t & Ht & T1 & T2).
  clear M1 M2.
  assert (Eh : (exact_hours us == x * (1 # 3600))%Q).
  { unfold exact_hours.
    change (inject_Z us / 3600000000)%Q
      with (inject_Z us * (1 # 3600000000))%Q.
    rewrite Qabs_pos by lra. rewrite Ex. ring. }
  unfold hours_apart, int_true_div. rewrite <- Dx, Hs. cbn [f_div].
  change (s / 3600)%Q with (s * (1 # 3600))%Q.
  rewrite Ht. cbn [f_abs].
  exists (Qred (Qabs t)). split; [reflexivity|].
  rewrite Qred_correct, Qabs_pos, Eh by lra. lra.
Qed.

(** The computed hours of a timedelta are a finite float within the
    fraction [2 ^ -51] of the exact hours. *)
Lemma hours_apart_error (us : Z) :
  valid_timedelta us ->
  exists t, hours_apart us = Fin t
    /\ (exact_hours us * (1 - (1 # 2251799813685248)) <= t
        <= exact_hours us * (1 + (1 # 2251799813685248)))%Q.
Proof.
  unfold valid_timedelta. intros Hv.
  destruct (Z.eq_dec us 0) as [->|Hne].
  - exists 0%Q. split; [reflexivity | split; discriminate].
  - destruct (hours_apart_error_pos (Z.abs us)) as (t & Ht & Hb); [lia|].
    exists t. rewrite <- hours_apart_abs, <- exact_hours_abs. auto.
Qed.

End Hours.

(** ** The temporal scorer over floats *)

Section ScorerFloat.

Import Binary64.

Lemma float_value_hours (ddiff : timedelta) (m : float) :
  Binary64.value_of_ddiff ddiff m
  = if f_ltb m (hours_apart ddiff) then Ok (Fin 0)
    else Binary64.py_div (f_sub m (hours_apart ddiff)) m.
Proof. reflexivity. Qed.

Lemma float_value_far (ddiff : timedelta) (m : float) :
  f_ltb m (hours_apart ddiff) = true ->
  Binary64.value_of_ddiff ddiff m = Ok (Fin 0).
Proof. intros H. now rewrite float_value_hours, H. Qed.

Lemma float_value_near (ddiff : timedelta) (m : float) :
  f_ltb m (hours_apart ddiff) = false -> f_eqb m (Fin 0) = false ->
  Binary64.value_of_ddiff ddiff m
  = Ok (f_div (f_sub m (hours_apart ddiff)) m).
Proof.
  intros H E. rewrite float_value_hours, H. unfold Binary64.py_div.
  now rewrite E.
Qed.

Lemma float_value_Fin (ddiff : timedelta) (q t : Q) :
  hours_apart ddiff = Fin t -> (t <= q)%Q -> (0 < q)%Q ->
  Binary64.value_of_ddiff ddiff (Fin q) = Ok (f_div (rnd (q - t)) (Fin q)).
Proof.
  intros Ht Hle Hq. rewrite float_value_near.
  - now rewrite Ht.
  - rewrite Ht. now apply f_ltb_Fin_false.
  - cbn [f_eqb]. destruct (Qeq_bool q 0) eqn:E; [|reflexivity].
    apply Qeq_bool_eq in E. lra.
Qed.

Lemma float_value_beyond (ddiff : timedelta) (q t : Q) :
  hours_apart ddiff = PInf \/ (hours_apart ddiff = Fin t /\ (q < t)%Q) ->
  Binary64.value_of_ddiff ddiff (Fin q) = Ok (Fin 0).
Proof.
  intros [H|[H Hlt]]; apply float_value_far; rewrite H;
    [reflexivity | now apply f_ltb_Fin].
Qed.

Lemma float_quotient_range (w q : Q) :
  (0 <= w <= q)%Q -> (0 < q)%Q ->
  exists v, f_div (Fin w) (Fin q) = Fin v /\ (0 <= v <= 1)%Q.
Proof.
  intros [W0 Wq] Hq. cbn [f_div]. apply rnd_between; [|exact rnd_one].
  split.
  - apply Qle_shift_div_l; lra.
  - apply Qle_shift_div_r; lra.
Qed.

(** For a cutoff that is a float above 0 the scorer returns a float
    between 0 and 1. *)
Lemma float_value_range (ddiff : timedelta) (q : Q) :
  is_float (Fin q) -> (0 < q)%Q ->
  exists v, Binary64.value_of_ddiff ddiff (Fin q) = Ok (Fin v)
            /\ (0 <= v <= 1)%Q.
Proof.
  intros Hf Hq. destruct (hours_apart_shape ddiff) as [(t & Ht & H0)|Hinf].
  - destruct (Qlt_le_dec q t) as [Hlt|Hle].
    + exists 0%Q. split; [|lra]. apply (float_value_beyond _ _ t). auto.
    + rewrite (float_value_Fin _ _ t Ht Hle Hq).
      destruct (rnd_between (q - t) q) as (w & -> & Hw); [lra | exact Hf |].
      destruct (float_quotient_range w q Hw Hq) as (v & -> & Hv). eauto.
  - exists 0%Q. split; [|lra]. apply (float_value_beyond _ _ 0). auto.
Qed.

Lemma float_value_antitone (d1 d2 : timedelta) (q v1 v2 : Q) :
  (0 < q)%Q -> Z.abs d1 <= Z.abs d2 ->
  Binary64.value_of_ddiff d1 (Fin q) = Ok (Fin v1) -> (0 <= v1)%Q ->
  Binary64.value_of_ddiff d2 (Fin q) = Ok (Fin v2) ->
  (v2 <= v1)%Q.
Proof.
  intros Hq Habs H1 Hv1 H2. pose proof (hours_apart_mono d1 d2 Habs) as Hm.
  destruct (hours_apart_shape d2) as [(t2 & Ht2 & H02)|Hinf].
  2:{ rewrite (float_value_beyond d2 q 0) in H2 by auto.
      injection H2 as <-. exact Hv1. }
  destruct (Qlt_le_dec q t2) as [Hlt|Hle].
  { rewrite (float_value_beyond d2 q t2) in H2 by auto.
    injection H2 as <-. exact Hv1. }
  rewrite Ht2 in Hm.
  destruct (hours_apart_shape d1) as [(t1 & Ht1 & H01)|Hinf];
    [|now rewrite Hinf in Hm].
  rewrite Ht1 in Hm. apply f_leb_Fin in Hm.
  rewrite (float_value_Fin d1 q t1 Ht1) in H1 by lra.
  rewrite (float_value_Fin d2 q t2 Ht2) in H2 by lra.
  injection H1 as H1. injection H2 as H2.
  apply f_leb_Fin. rewrite <- H1, <- H2. apply f_div_mono; [exact Hq|].
  apply rnd_mono. lra.
Qed.

Lemma float_value_at_zero (q : Q) :
  is_float (Fin q) -> (0 < q)%Q ->
  Binary64.value_of_ddiff 0 (Fin q) = Ok (Fin 1).
Proof.
  intros Hf Hq. rewrite (float_value_Fin 0 q 0 hours_apart_zero) by lra.
  rewrite (rnd_comp (q - 0) q) by ring. unfold is_float in Hf. rewrite Hf.
  cbn [f_div]. rewrite (rnd_comp (q / q) 1) by (field; lra).
  now rewrite rnd_one.
Qed.

Lemma float_value_at_cutoff (ddiff : timedelta) (q : Q) :
  (0 < q)%Q -> f_leb (Fin q) (hours_apart ddiff) = true ->
  Binary64.value_of_ddiff ddiff (Fin q) = Ok (Fin 0).
Proof.
  intros Hq Hle. destruct (hours_apart_shape ddiff) as [(t & Ht & H0)|Hinf].
  - rewrite Ht in Hle. apply f_leb_Fin in Hle.
    destruct (Qlt_le_dec q t) as [Hlt|Hge].
    + apply (float_value_beyond _ _ t). auto.
    + rewrite (float_value_Fin _ _ t Ht Hge Hq).
      rewrite (rnd_of_zero (q - t)) by lra. cbn [f_div].
      now rewrite (rnd_of_zero (0 / q)) by (field; lra).
  - apply (float_value_beyond _ _ 0). auto.
Qed.

(** A difference that exceeds the cutoff by the fraction [2 ^ -50] of it
    scores 0. *)
Lemma float_value_exact_beyond (ddiff : timedelta) (q : Q) :
  valid_timedelta ddiff -> (0 < q)%Q ->
  (q * (1 + (1 # 1125899906842624)) <= exact_hours ddiff)%Q ->
  Binary64.value_of_ddiff ddiff (Fin q) = Ok (Fin 0).
Proof.
  intros Hv Hq Hex. destruct (hours_apart_error ddiff Hv) as (t & Ht & T1 & _).
  apply float_value_at_cutoff; [exact Hq|]. rewrite Ht. apply f_leb_Fin. lra.
Qed.

Lemma float_value_date {T : Type} `{Timestamp T} (a b : T) (ddiff : timedelta)
    (m : float) :
  try_subtract a b = Ok ddiff ->
  Binary64._value_date a b m = Binary64.value_of_ddiff ddiff m.
Proof. intros Hs. unfold Binary64._value_date. now rewrite Hs. Qed.

End ScorerFloat.

(** C3 (as amended): the subtraction of two datetimes, with its fallback,
    returns a timedelta, the difference of the wall clocks when one of the
    dates is naive.  For two dates whose difference [ddiff] is a timedelta
    that Python can hold, the hours that line 44 computes are a finite float
    within the fraction [2 ^ -51] of the exact absolute difference in hours;
    [_value_date] returns exactly 0.0 when [max_diff_hours] is below these
    computed hours, and the float quotient of [max_diff_hours - diff_hours]
    and [max_diff_hours] otherwise (unless [max_diff_hours] is zero).  When
    [max_diff_hours] is a finite float above 0 the value returned is a float
    in [0, 1], and it is 0.0 when the exact difference in hours exceeds
    [max_diff_hours] by the fraction [2 ^ -50] of it. *)
Theorem value_date_float_formula :
  (forall a b : datetime,
      exists ddiff,
        try_subtract a b = Ok ddiff
        /\ (aware a = false \/ aware b = false -> ddiff = wall a - wall b))
  /\ (forall (T : Type) (TS : Timestamp T) (overpass_date target_date : T)
        (ddiff : timedelta) (max_diff_hours : Binary64.float),
        try_subtract overpass_date target_date = Ok ddiff ->
        valid_timedelta ddiff ->
        (exists t,
            hours_apart ddiff = Binary64.Fin t
            /\ (exact_hours ddiff * (1 - (1 # 2251799813685248)) <= t
                <= exact_hours ddiff * (1 + (1 # 2251799813685248)))%Q)
        /\ (Binary64.f_ltb max_diff_hours (hours_apart ddiff) = true ->
            Binary64._value_date overpass_date target_date max_diff_hours
            = Ok (Binary64.Fin 0))
        /\ (Binary64.f_ltb max_diff_hours (hours_apart ddiff) = false ->
            Binary64.f_eqb max_diff_hours (Binary64.Fin 0) = false ->
            Binary64._value_date overpass_date target_date max_diff_hours
            = Ok (Binary64.f_div
                    (Binary64.f_sub max_diff_hours (hours_apart ddiff))
                    max_diff_hours))
        /\ (forall q,
              max_diff_hours = Binary64.Fin q -> is_float max_diff_hours ->
              (0 < q)%Q ->
              ((q * (1 + (1 # 1125899906842624)) <= exact_hours ddiff)%Q ->
               Binary64._value_date overpass_date target_date max_diff_hours
               = Ok (Binary64.Fin 0))
              /\ exists v,
                   Binary64._value_date overpass_date target_date
                     max_diff_hours = Ok (Binary64.Fin v)
                   /\ (0 <= v <= 1)%Q)).
Proof.
  split.
  { intros a b. exists (elapsed a b). split; [apply try_subtract_datetime|].
    unfold aware, elapsed.
    destruct (tzinfo a), (tzinfo b); intros [E|E]; try discriminate E;
      reflexivity. }
  intros T TS overpass_date target_date ddiff max_diff_hours Hs Hv.
  rewrite (float_value_date _ _ _ _ Hs).
  split; [exact (hours_apart_error ddiff Hv)|].
  split; [apply float_value_far|]. split; [apply float_value_near|].
  intros q -> Hf Hq. split.
  - now apply float_value_exact_beyond.
  - now apply float_value_range.
Qed.

Lemma value_date_float_formula_witness :
  try_subtract (naive (hours 10)) (utc 0) = Ok (hours 10)
  /\ valid_timedelta (hours 10)
  /\ Binary64._value_date (naive (hours 10)) (utc 0) (Binary64.Fin 48)
     = Ok (Binary64.f_div
             (Binary64.f_sub (Binary64.Fin 48) (hours_apart (hours 10)))
             (Binary64.Fin 48)).
Proof.
  split; [reflexivity|]. split; [reflexivity|].
  destruct (proj2 value_date_float_formula datetime _
              (naive (hours 10)) (utc 0) (hours 10) (Binary64.Fin 48))
    as (_ & _ & Hnear & _); [reflexivity | reflexivity |].
  apply Hnear; vm_compute; reflexivity.
Defined.

(** With the cutoff 46614.14873188611 a date whose exact difference from
    the target exceeds the cutoff has a value above 0, the computed hours
    being rounded below the cutoff; with an infinite cutoff the value is
    nan, which is not in [0, 1]. *)
Lemma value_date_float_formula_fails :
  (is_float (Binary64.Fin cutoff_46614) /\ (0 < cutoff_46614)%Q)
  /\ (cutoff_46614
      < exact_hours (elapsed (naive april_2025) (naive new_year_2020)))%Q
  /\ (exists v,
        Binary64._value_date (naive april_2025) (naive new_year_2020)
          (Binary64.Fin cutoff_46614) = Ok (Binary64.Fin v)
        /\ (0 < v)%Q)
  /\ Binary64._value_date (naive new_year_2020) (naive new_year_2020)
       Binary64.PInf = Ok Binary64.NaN.
Proof.
  split; [split; [vm_compute; reflexivity | reflexivity]|].
  split; [vm_compute; reflexivity|]. split.
  - eexists. split; [vm_compute; reflexivity | reflexivity].
  - vm_compute. reflexivity.
Qed.

(** C6 (as amended): for a fixed target date and a cutoff that is a finite
    float above 0, the temporal value does not increase when the absolute
    value of the difference [overpass_date - target_date] grows; it is
    exactly 1.0 at difference zero, exactly 0.0 when the hours computed at
    line 44 are [max_diff_hours] or more, and so whenever the exact
    difference in hours exceeds [max_diff_hours] by the fraction [2 ^ -50]
    of it. *)
Theorem value_date_float_monotone {T : Type} `{Timestamp T} (target_date : T)
    (q : Q) :
  is_float (Binary64.Fin q) -> (0 < q)%Q ->
  (forall d1 d2 ddiff1 ddiff2,
      try_subtract d1 target_date = Ok ddiff1 ->
      try_subtract d2 target_date = Ok ddiff2 ->
      Z.abs ddiff1 <= Z.abs ddiff2 ->
      exists v1 v2,
        Binary64._value_date d1 target_date (Binary64.Fin q)
          = Ok (Binary64.Fin v1)
        /\ Binary64._value_date d2 target_date (Binary64.Fin q)
           = Ok (Binary64.Fin v2)
        /\ (v2 <= v1)%Q)
  /\ (forall d,
        try_subtract d target_date = Ok 0 ->
        Binary64._value_date d target_date (Binary64.Fin q)
        = Ok (Binary64.Fin 1))
  /\ (forall d ddiff,
        try_subtract d target_date = Ok ddiff ->
        Binary64.f_leb (Binary64.Fin q) (hours_apart ddiff) = true ->
        Binary64._value_date d target_date (Binary64.Fin q)
        = Ok (Binary64.Fin 0))
  /\ (forall d ddiff,
        try_subtract d target_date = Ok ddiff ->
        valid_timedelta ddiff ->
        (q * (1 + (1 # 1125899906842624)) <= exact_hours ddiff)%Q ->
        Binary64._value_date d target_date (Binary64.Fin q)
        = Ok (Binary64.Fin 0)).
Proof.
  intros Hf Hq. split; [|split; [|split]].
  - intros d1 d2 ddiff1 ddiff2 H1 H2 Habs.
    rewrite (float_value_date _ _ _ _ H1), (float_value_date _ _ _ _ H2).
    destruct (float_value_range ddiff1 q Hf Hq) as (v1 & E1 & V1 & _).
    destruct (float_value_range ddiff2 q Hf Hq) as (v2 & E2 & _).
    exists v1, v2. split; [exact E1|]. split; [exact E2|].
    exact (float_value_antitone _ _ _ _ _ Hq Habs E1 V1 E2).
  - intros d Hd. rewrite (float_value_date _ _ _ _ Hd).
    now apply float_value_at_zero.
  - intros d ddiff Hd Hle. rewrite (float_value_date _ _ _ _ Hd).
    now apply float_value_at_cutoff.
  - intros d ddiff Hd Hv Hex. rewrite (float_value_date _ _ _ _ Hd).
    now apply float_value_exact_beyond.
Qed.

Lemma value_date_float_monotone_witness :
  (is_float (Binary64.Fin 48) /\ (0 < 48)%Q)
  /\ exists v1 v2,
       Binary64._value_date (naive (hours 10)) (naive 0) (Binary64.Fin 48)
         = Ok (Binary64.Fin v1)
       /\ Binary64._value_date (naive (hours (-40))) (naive 0)
            (Binary64.Fin 48) = Ok (Binary64.Fin v2)
       /\ (v2 <= v1)%Q.
Proof.
  split; [split; reflexivity|].
  apply (proj1 (value_date_float_monotone (naive 0) 48 eq_refl eq_refl)
           (naive (hours 10)) (naive (hours (-40))) (hours 10) (hours (-40)));
    [reflexivity | reflexivity | discriminate].
Defined.

(** With the cutoff 28080.306048983333 a date whose exact difference from
    the target is beyond the cutoff has a value that is not 0; with an
    infinite cutoff the value at difference zero is nan, not 1. *)
Lemma value_date_nonzero_beyond_cutoff :
  (is_float (Binary64.Fin cutoff_28080) /\ (0 < cutoff_28080)%Q)
  /\ (cutoff_28080
      < exact_hours (elapsed (naive august_2024) (naive june_2021)))%Q
  /\ (exists v,
        Binary64._value_date (naive august_2024) (naive june_2021)
          (Binary64.Fin cutoff_28080) = Ok (Binary64.Fin v)
        /\ ~ (v == 0)%Q)
  /\ Binary64._value_date (naive june_2021) (naive june_2021) Binary64.PInf
     = Ok Binary64.NaN.
Proof.
  split; [split; [vm_compute; reflexivity | reflexivity]|].
  split; [vm_compute; reflexivity|]. split.
  - eexists. split; [vm_compute; reflexivity | discriminate].
  - vm_compute. reflexivity.
Qed.

(** ** The selector over floats *)

Section ScorerShape.

Import Binary64.

(** Whatever the cutoff, a value that the scorer returns is nan or a finite
    float that is not negative. *)
Lemma float_value_shape (ddiff : timedelta) (m x : float) :
  is_float m -> Binary64.value_of_ddiff ddiff m = Ok x ->
  x = NaN \/ exists v, x = Fin v /\ (0 <= v)%Q.
Proof.
  intros Hf. destruct m as [q| | |].
  - destruct (Qlt_le_dec 0 q) as [Hq|Hq].
    + destruct (float_value_range ddiff q Hf Hq) as (v & -> & Hv & _).
      intros [= <-]. right. eauto.
    + rewrite float_value_hours. unfold Binary64.py_div.
      destruct (hours_apart_shape ddiff) as [(t & -> & H0)| ->];
        cbn [f_ltb f_eqb].
      * destruct (Qlt_le_dec q t) as [_|Hle].
        -- intros [= <-]. right. exists 0%Q. split; [reflexivity | lra].
        -- assert (E : Qeq_bool q 0 = true) by (apply Qeq_bool_iff; lra).
           now rewrite E.
      * intros [= <-]. right. exists 0%Q. split; [reflexivity | lra].
  - rewrite float_value_hours.
    destruct (hours_apart_shape ddiff) as [(t & -> & H0)| ->];
      intros [= <-]; now left.
  - rewrite float_value_hours.
    destruct (hours_apart_shape ddiff) as [(t & -> & H0)| ->];
      intros [= <-]; right; exists 0%Q; (split; [reflexivity | lra]).
  - rewrite float_value_hours.
    destruct (hours_apart_shape ddiff) as [(t & -> & H0)| ->];
      intros [= <-]; now left.
Qed.

Lemma float_value_total (ddiff : timedelta) (m : float) :
  f_eqb m (Fin 0) = false -> exists x, Binary64.value_of_ddiff ddiff m = Ok x.
Proof.
  intros E. rewrite float_value_hours. unfold Binary64.py_div. rewrite E.
  destruct (f_ltb _ _); eauto.
Qed.

Lemma float_value_cutoff_nonzero (ddiff : timedelta) (m : float) (v : Q) :
  Binary64.value_of_ddiff ddiff m = Ok (Fin v) -> (0 < v)%Q ->
  f_eqb m (Fin 0) = false.
Proof.
  rewrite float_value_hours. unfold Binary64.py_div.
  destruct (f_ltb _ _).
  - intros [= <-] Hv. lra.
  - destruct (f_eqb m (Fin 0)); [discriminate | reflexivity].
Qed.

Lemma float_value_datetime (a b : datetime) (m : float) :
  Binary64._value_date a b m = Binary64.value_of_ddiff (elapsed a b) m.
Proof. apply float_value_date, try_subtract_datetime. Qed.

End ScorerShape.

Section SelectorFloat.

Import Binary64.

Context {G : Type} `{Binary64.Geometry G} `{Binary64.NumPy}.

Variables (aoi_geom : G) (target_date : datetime).
Variables (max_diff_hours min_overlap_pct : float).

Implicit Types (d : date_groups_t G) (g : datetime * list (entry G)).
Implicit Types (v : Q).

Local Notation qual :=
  (qualifies64 aoi_geom target_date max_diff_hours min_overlap_pct).
Local Notation fbest :=
  (first_best64 aoi_geom target_date max_diff_hours min_overlap_pct).
Local Notation inv :=
  (scanned64 aoi_geom target_date max_diff_hours min_overlap_pct).
Local Notation step d :=
  (Binary64.scan_group d aoi_geom target_date max_diff_hours min_overlap_pct).
Local Notation run d :=
  (Binary64.scan d aoi_geom target_date max_diff_hours min_overlap_pct).
Local Notation ratios es := (map (overlap_ratio64 aoi_geom) es).

Lemma float_overlap_Ok (footprint_geom : G) :
  f_eqb (Binary64.area aoi_geom) (Fin 0) = false ->
  Binary64._value_overlap footprint_geom aoi_geom
  = Ok (f_div (Binary64.area (Binary64.intersection aoi_geom footprint_geom))
              (Binary64.area aoi_geom)).
Proof.
  intros Ha. unfold Binary64._value_overlap, Binary64.py_div. now rewrite Ha.
Qed.

Lemma float_loop_Ok (es : list (entry G)) : forall acc,
  f_eqb (Binary64.area aoi_geom) (Fin 0) = false ->
  Binary64.overlap_loop aoi_geom es acc = Ok (acc ++ ratios es).
Proof.
  induction es as [|e es IH]; simpl; intros acc Ha.
  - now rewrite app_nil_r.
  - rewrite (float_overlap_Ok _ Ha). simpl.
    rewrite (IH _ Ha), <- app_assoc. reflexivity.
Qed.

Lemma float_loop_inv (es : list (entry G)) : forall acc l,
  Binary64.overlap_loop aoi_geom es acc = Ok l ->
  l = acc ++ ratios es
  /\ (es <> [] -> f_eqb (Binary64.area aoi_geom) (Fin 0) = false).
Proof.
  destruct es as [|e es]; intros acc l Hl.
  - simpl in Hl. injection Hl as <-. now rewrite app_nil_r.
  - assert (Ha : f_eqb (Binary64.area aoi_geom) (Fin 0) = false).
    { simpl in Hl. apply bind_Ok in Hl as (v & Hv & _).
      unfold Binary64._value_overlap, Binary64.py_div in Hv.
      now destruct (f_eqb _ _). }
    rewrite (float_loop_Ok _ _ Ha) in Hl. injection Hl as <-. auto.
Qed.

Lemma qualifies64_fun g v v' : qual g v -> qual g v' -> v = v'.
Proof. intros [H1 _] [H2 _]. congruence. Qed.

Lemma qualifies64_nonzero g v :
  qual g v -> snd g <> [] ->
  f_eqb max_diff_hours (Fin 0) = false
  /\ f_eqb (Binary64.area aoi_geom) (Fin 0) = false.
Proof.
  intros (Hv & Hpos & Hl & _) Hne. split.
  - rewrite float_value_datetime in Hv.
    exact (float_value_cutoff_nonzero _ _ _ Hv Hpos).
  - exact (proj2 (float_loop_inv _ _ _ Hl) Hne).
Qed.

(** *** The invariant of the selection loop *)

Lemma first_best64_extend seen g g' v :
  fbest seen g v -> (forall v', qual g' v' -> (v' <= v)%Q) ->
  fbest (seen ++ [g']) g v.
Proof.
  intros (before & after & -> & Hq & Hb & Ha) Hle.
  exists before, (after ++ [g']).
  split; [now rewrite <- app_assoc|].
  split; [exact Hq|]. split; [exact Hb|].
  intros g1 v1 Hin Hq1.
  apply in_app_or in Hin as [Hin|[<-|[]]]; eauto.
Qed.

Lemma scanned64_extend seen bv be g' :
  inv seen (Fin bv, be) -> (forall v', qual g' v' -> (v' <= bv)%Q) ->
  inv (seen ++ [g']) (Fin bv, be).
Proof.
  intros [[Hb Hnone]|(g & v & Hb & Hfb)] Hle.
  - left. split; [exact Hb|]. injection Hb as -> ->.
    intros g1 v1 Hin Hq1.
    apply in_app_or in Hin as [Hin|[<-|[]]]; [now apply (Hnone g1 v1)|].
    pose proof (Hle v1 Hq1) as Hv1. destruct Hq1 as (_ & Hpos & _). lra.
  - right. exists g, v. split; [exact Hb|]. injection Hb as -> ->.
    now apply first_best64_extend.
Qed.

Lemma scanned64_bound seen bv be g v :
  inv seen (Fin bv, be) -> In g seen -> qual g v -> (v <= bv)%Q.
Proof.
  intros [[_ Hnone]|(g0 & v0 & Hb & before & after & -> & Hq & Hbf & Haf)]
    Hin Hqv.
  - now destruct (Hnone g v Hin).
  - injection Hb as -> ->.
    apply in_app_or in Hin as [Hin|[<-|Hin]].
    + apply Qlt_le_weak. eauto.
    + rewrite (qualifies64_fun _ _ _ Hqv Hq). apply Qle_refl.
    + eauto.
Qed.

Lemma scanned64_update seen bv be g v :
  inv seen (Fin bv, be) -> qual g v -> (bv < v)%Q ->
  inv (seen ++ [g]) (Fin v, Some (snd g)).
Proof.
  intros Hinv Hq Hlt. right. exists g, v. split; [reflexivity|].
  exists seen, [].
  split; [reflexivity|]. split; [exact Hq|]. split; [|intros ? ? []].
  intros g' v' Hin Hq'.
  apply Qle_lt_trans with bv; [|exact Hlt].
  exact (scanned64_bound _ _ _ _ _ Hinv Hin Hq').
Qed.

Lemma scanned64_best seen best :
  inv seen best -> exists bv be, best = (Fin bv, be) /\ (0 <= bv)%Q.
Proof.
  intros [[-> _]|(g & v & -> & _ & _ & _ & (_ & Hpos & _) & _)].
  - exists 0%Q, None. split; [reflexivity | lra].
  - exists v, (Some (snd g)). split; [reflexivity | lra].
Qed.

Lemma scanned64_start : inv [] (Fin 0, None).
Proof. left. split; [reflexivity | intros ? ? []]. Qed.

Hypothesis cutoff_is_float : is_float max_diff_hours.

Lemma scan_group_scanned64 d before k es after best best' :
  distinct_keys d -> d = before ++ (k, es) :: after ->
  inv before best -> step d best k = Ok best' ->
  inv (before ++ [(k, es)]) best'.
Proof.
  intros Hd Heq Hinv.
  destruct (scanned64_best _ _ Hinv) as (bv & be & -> & Hbv).
  unfold Binary64.scan_group.
  destruct (Binary64._value_date k target_date max_diff_hours) as [x|y]
    eqn:Hv; simpl; [|discriminate].
  assert (Hx : x = NaN \/ exists v, x = Fin v /\ (0 <= v)%Q).
  { rewrite float_value_datetime in Hv.
    exact (float_value_shape _ _ _ cutoff_is_float Hv). }
  rewrite Heq, dict_getitem_distinct by (rewrite <- Heq; exact Hd).
  destruct Hx as [->|(v & -> & Hv0)].
  { assert (Hno : forall v', qual (k, es) v' -> (v' <= bv)%Q).
    { intros v' (Hv' & _). simpl in Hv'. rewrite Hv in Hv'. discriminate. }
    cbn [f_eqb].
    destruct (Binary64.overlap_loop aoi_geom es []) as [l|y];
      simpl; [|discriminate].
    destruct (f_ltb (np_sum l) min_overlap_pct);
      intros [= <-]; now apply scanned64_extend. }
  cbn [f_eqb]. destruct (Qeq_bool v 0) eqn:E0.
  { intros [= <-]. apply scanned64_extend; [exact Hinv|].
    intros v' (Hv' & Hpos & _). simpl in Hv'. rewrite Hv in Hv'.
    injection Hv' as <-. apply Qeq_bool_eq in E0. lra. }
  apply Qeq_bool_neq in E0.
  destruct (Binary64.overlap_loop aoi_geom es []) as [l|y] eqn:Hl;
    simpl; [|discriminate].
  destruct (float_loop_inv _ _ _ Hl) as [El _]. simpl in El. subst l.
  destruct (f_ltb (np_sum (ratios es)) min_overlap_pct) eqn:Eg.
  { intros [= <-]. apply scanned64_extend; [exact Hinv|].
    intros v' (_ & _ & _ & Hsum). simpl in Hsum. congruence. }
  assert (Hq : qual (k, es) v).
  { split; [exact Hv|]. split; [|split; [exact Hl | exact Eg]].
    destruct (Qle_lt_or_eq _ _ Hv0) as [Hpos|Hz]; [exact Hpos|].
    destruct E0. now symmetry. }
  cbn [f_ltb]. destruct (Qlt_le_dec bv v) as [Hlt|Hle].
  - intros [= <-]. exact (scanned64_update _ _ _ _ _ Hinv Hq Hlt).
  - intros [= <-]. apply scanned64_extend; [exact Hinv|].
    intros v' Hq'. now rewrite (qualifies64_fun _ _ _ Hq' Hq).
Qed.

Lemma scan_scanned64 d after : forall before best best',
  distinct_keys d -> d = before ++ after ->
  inv before best -> run d (dict_keys after) best = Ok best' ->
  inv d best'.
Proof.
  induction after as [|[k es] after IH]; simpl;
    intros before best best' Hd Heq Hinv Hrun.
  - injection Hrun as <-. now rewrite Heq, app_nil_r.
  - apply bind_Ok in Hrun as (best1 & Hstep & Hrun).
    apply IH with (before ++ [(k, es)]) best1; trivial.
    + now rewrite <- app_assoc.
    + exact (scan_group_scanned64 d before k es after best best1
               Hd Heq Hinv Hstep).
Qed.

(** *** When the loop returns *)

Lemma scan_group_total64 d (best : Binary64.best_t G) (k : datetime) :
  f_eqb max_diff_hours (Fin 0) = false ->
  f_eqb (Binary64.area aoi_geom) (Fin 0) = false ->
  exists best', step d best k = Ok best'.
Proof.
  intros Hm Ha. unfold Binary64.scan_group. destruct best as [bx be].
  rewrite float_value_datetime.
  destruct (float_value_total (elapsed k target_date) _ Hm) as [x ->]. simpl.
  destruct (f_eqb x (Fin 0)); [eauto|].
  rewrite (float_loop_Ok _ _ Ha). simpl.
  destruct (f_ltb _ min_overlap_pct); [eauto|].
  destruct (f_ltb bx x); eauto.
Qed.

Lemma scan_total64 d (keys : list datetime) : forall best,
  f_eqb max_diff_hours (Fin 0) = false ->
  f_eqb (Binary64.area aoi_geom) (Fin 0) = false ->
  exists best', run d keys best = Ok best'.
Proof.
  induction keys as [|k keys IH]; simpl; intros best Hm Ha; [eauto|].
  destruct (scan_group_total64 d best k Hm Ha) as [best1 ->]. simpl.
  now apply IH.
Qed.

(** *** The first best group is unique *)

Lemma first_best64_unique d g g' v v' :
  fbest d g v -> fbest d g' v' -> g = g'.
Proof.
  intros (b1 & a1 & -> & Hq & Hb & Ha) (b2 & a2 & Heq & Hq' & Hb' & Ha').
  destruct (app_cons_split _ _ _ _ _ _ Heq)
    as [(_ & Hg & _)|[[H1 H2]|[H1 H2]]]; [exact Hg| |]; exfalso.
  - apply (Qlt_not_le _ _ (Hb' g v H1 Hq)). exact (Ha g' v' H2 Hq').
  - apply (Qlt_not_le _ _ (Hb g' v' H1 Hq')). exact (Ha' g v H2 Hq).
Qed.

Lemma first_best64_In d g v : fbest d g v -> In g d /\ qual g v.
Proof.
  intros (b & a & -> & Hq & _). split; [|exact Hq].
  apply in_or_app. right. now left.
Qed.

(** *** The selector as a whole *)

Lemma float_best_overpass_Ok (entries : list (entry G)) r :
  Binary64.get_best_overpass entries aoi_geom target_date
    max_diff_hours min_overlap_pct = Ok r ->
  exists d g v,
    group_entries_by_date entries = Ok d /\ r = Some (snd g) /\ fbest d g v.
Proof.
  unfold Binary64.get_best_overpass. intros Hr.
  apply bind_Ok in Hr as (d & Hd & Hr).
  apply bind_Ok in Hr as ([bx be] & Hrun & Hr).
  destruct (f_eqb bx (Fin 0)) eqn:E0; [discriminate|]. injection Hr as <-.
  destruct (group_entries_grouped _ _ Hd) as (Hdist & _).
  destruct (scan_scanned64 d d [] _ _ Hdist eq_refl scanned64_start Hrun)
    as [[[= -> ->] _]|(g & v & [= -> ->] & Hfb)]; [discriminate|].
  exists d, g, v. auto.
Qed.

Lemma float_best_overpass_first_best (entries : list (entry G)) d g v :
  group_entries_by_date entries = Ok d -> fbest d g v ->
  Binary64.get_best_overpass entries aoi_geom target_date
    max_diff_hours min_overlap_pct = Ok (Some (snd g)).
Proof.
  intros Hd Hfb. pose proof (group_entries_grouped _ _ Hd) as (Hdist & Hne & _).
  destruct (first_best64_In _ _ _ Hfb) as [Hin Hq].
  assert (Hsnd : snd g <> []) by (destruct g as [k es]; apply (Hne k es Hin)).
  destruct (qualifies64_nonzero _ _ Hq Hsnd) as [Hm Ha].
  destruct (scan_total64 d (dict_keys d) (Fin 0, None) Hm Ha)
    as [[bx be] Hrun].
  unfold Binary64.get_best_overpass. rewrite Hd. simpl. rewrite Hrun. simpl.
  destruct (scan_scanned64 d d [] _ _ Hdist eq_refl scanned64_start Hrun)
    as [[_ Hnone]|(g' & v' & [= -> ->] & Hfb')].
  - destruct (Hnone g v Hin Hq).
  - rewrite (first_best64_unique _ _ _ _ _ Hfb Hfb').
    destruct Hfb' as (_ & _ & _ & (_ & Hpos & _) & _).
    cbn [f_eqb]. destruct (Qeq_bool v' 0) eqn:E0; [|reflexivity].
    apply Qeq_bool_eq in E0. lra.
Qed.

End SelectorFloat.

(** C5: for an area of interest whose area is not zero the spatial scorer
    returns the float quotient of the area of the intersection and the area
    of the area of interest, and the loop of lines 104-109 computes this
    value for each entry of a group, one value per entry.  The selector
    returns exactly the entry list of the first best group among the groups
    that have a temporal value above 0 and whose per-entry overlap values
    have a sum ([np.sum]) that is not below [min_overlap_pct]; a group whose
    sum is below [min_overlap_pct] is never returned.  The sum counts an
    area once for each footprint that covers it: two footprints that each
    cover the whole area of interest have the values 1.0 and 1.0, sum to 2.0
    and pass a floor of 1.5. *)
Theorem best_overpass_gated_by_overlap_sum :
  (forall (G : Type) (Geo : Binary64.Geometry G) (footprint_geom aoi_geom : G),
      Binary64.f_eqb (Binary64.area aoi_geom) (Binary64.Fin 0) = false ->
      Binary64._value_overlap footprint_geom aoi_geom
      = Ok (Binary64.f_div
              (Binary64.area (Binary64.intersection aoi_geom footprint_geom))
              (Binary64.area aoi_geom)))
  /\ (forall (G : Type) (Geo : Binary64.Geometry G) (NP : Binary64.NumPy)
        (parsed_entries : list (entry G)) (aoi_geom : G)
        (target_date : datetime)
        (max_diff_hours min_overlap_pct : Binary64.float),
        is_float max_diff_hours ->
        (forall entries,
            Binary64.f_eqb (Binary64.area aoi_geom) (Binary64.Fin 0) = false ->
            Binary64.overlap_loop aoi_geom entries []
            = Ok (map (overlap_ratio64 aoi_geom) entries))
        /\ (forall r,
              Binary64.get_best_overpass parsed_entries aoi_geom target_date
                max_diff_hours min_overlap_pct = Ok r
              <-> exists d g v,
                    group_entries_by_date parsed_entries = Ok d
                    /\ r = Some (snd g)
                    /\ first_best64 aoi_geom target_date max_diff_hours
                         min_overlap_pct d g v)
        /\ (forall es,
              Binary64.f_ltb
                (Binary64.np_sum (map (overlap_ratio64 aoi_geom) es))
                min_overlap_pct = true ->
              Binary64.get_best_overpass parsed_entries aoi_geom target_date
                max_diff_hours min_overlap_pct <> Ok (Some es)))
  /\ (map (overlap_ratio64 aoi10) doubled = [Binary64.Fin 1; Binary64.Fin 1]
      /\ Binary64.np_sum (map (overlap_ratio64 aoi10) doubled)
         = Binary64.Fin 2
      /\ Binary64.get_best_overpass doubled aoi10 (naive 0)
           (Binary64.Fin 48) (Binary64.Fin (3 # 2)) = Ok (Some doubled)).
Proof.
  split; [|split].
  - intros G Geo footprint_geom aoi_geom Ha. now apply float_overlap_Ok.
  - intros G Geo NP parsed_entries aoi_geom target_date max_diff_hours
      min_overlap_pct Hf.
    split; [|split].
    + intros entries Ha. exact (float_loop_Ok aoi_geom entries [] Ha).
    + intros r. split.
      * now apply float_best_overpass_Ok.
      * intros (d & g & v & Hd & -> & Hfb).
        exact (float_best_overpass_first_best _ _ _ _ Hf _ d g v Hd Hfb).
    + intros es Hlow Hr.
      destruct (float_best_overpass_Ok _ _ _ _ Hf _ _ Hr)
        as (d & g & v & _ & [= ->] & Hfb).
      destruct (first_best64_In _ _ _ _ _ _ _ Hfb) as (_ & _ & _ & _ & Hsum).
      congruence.
  - split; [|split]; vm_compute; reflexivity.
Qed.

Lemma best_overpass_gated_by_overlap_sum_witness :
  is_float (Binary64.Fin 48)
  /\ Binary64.get_best_overpass scenario_B aoi10 (naive 0)
       (Binary64.Fin 48) (Binary64.rnd (3 # 10)) = Ok (Some [pass 10 0 5])
  /\ exists d g v,
       group_entries_by_date scenario_B = Ok d
       /\ Some [pass 10 0 5] = Some (snd g)
       /\ first_best64 aoi10 (naive 0) (Binary64.Fin 48)
            (Binary64.rnd (3 # 10)) d g v.
Proof.
  split; [reflexivity|]. split; [vm_compute; reflexivity|].
  destruct (proj1 (proj2 best_overpass_gated_by_overlap_sum) box _ _
              scenario_B aoi10 (naive 0) (Binary64.Fin 48)
              (Binary64.rnd (3 # 10)) eq_refl) as (_ & Hiff & _).
  apply (proj1 (Hiff (Some [pass 10 0 5]))). vm_compute. reflexivity.
Defined.

(** * Further properties of the code *)

(** ** The midpoint of two dates *)

Lemma datetime_sub_Ok (a b : datetime) (d : timedelta) :
  datetime_sub a b = Ok d -> d = elapsed a b /\ aware a = aware b.
Proof.
  unfold datetime_sub, elapsed, aware.
  destruct (tzinfo a) as [oa|], (tzinfo b) as [ob|]; try discriminate.
  - destruct (oa =? ob) eqn:E; intros [= <-]; split; trivial; [|lia].
    apply Z.eqb_eq in E. lia.
  - intros [= <-]. auto.
Qed.

Lemma divide_and_round_two (a : Z) :
  Z.abs (2 * divide_and_round a 2 - a) <= 1
  /\ (Z.even a = true -> 2 * divide_and_round a 2 = a)
  /\ (Z.odd a = true -> Z.even (divide_and_round a 2) = true).
Proof.
  unfold divide_and_round.
  pose proof (Z.div_mod a 2 ltac:(lia)) as Hdm.
  pose proof (Zmod_even a) as Hev. pose proof (Zmod_even (a / 2)) as Hq.
  rewrite <- (Z.negb_even a).
  destruct (Z.even a) eqn:Ea; rewrite Hev; cbv iota in Hev |- *.
  - change (2 <? 2 * 0) with false. change (2 * 0 =? 2) with false.
    cbv [orb andb negb].
    split; [lia|]. split; [intros _; lia | discriminate].
  - change (2 <? 2 * 1) with false. change (2 * 1 =? 2) with true.
    cbv [orb andb negb].
    destruct (Z.even (a / 2)) eqn:Eq; rewrite Hq; cbv iota in Hq |- *.
    + change (0 =? 1) with false. cbv iota.
      split; [lia|]. split; [discriminate | intros _; exact Eq].
    + change (1 =? 1) with true. cbv iota.
      split; [lia|]. split; [discriminate|]. intros _.
      change (a / 2 + 1) with (Z.succ (a / 2)).
      now rewrite Z.even_succ, <- Z.negb_even, Eq.
Qed.

(** X2: the date that [_average_datetime] returns carries the timezone of
    the first date; with [dt] the timedelta that the subtraction
    [date2 - date1] gives, twice the distance of its wall clock from that of
    the first date differs from [dt] by at most one microsecond, and by none
    when [dt] is even; an odd [dt] is halved to the even neighbour; for a
    [dt] that is not negative the wall clock of the result lies between
    that of the first date and that date plus [dt]. *)
Theorem average_datetime_midpoint (date1 date2 m : datetime) :
  _average_datetime date1 date2 = Ok m ->
  exists dt,
    datetime_sub date2 date1 = Ok dt
    /\ tzinfo m = tzinfo date1
    /\ Z.abs (2 * (wall m - wall date1) - dt) <= 1
    /\ (Z.even dt = true -> 2 * (wall m - wall date1) = dt)
    /\ (Z.odd dt = true -> Z.even (wall m - wall date1) = true)
    /\ (0 <= dt -> wall date1 <= wall m <= wall date1 + dt).
Proof.
  unfold _average_datetime. intros Hm.
  apply bind_Ok in Hm as (dt & Hs & Hm).
  apply bind_Ok in Hm as (date & Hadd & [= <-]).
  unfold datetime_add in Hadd.
  destruct (in_range _); [|discriminate]. injection Hadd as <-.
  exists dt. split; [exact Hs|]. simpl.
  replace (wall date1 + timedelta_div dt 2 - wall date1)
    with (divide_and_round dt 2) by (unfold timedelta_div; lia).
  destruct (divide_and_round_two dt) as (H1 & H2 & H3).
  split; [reflexivity|]. split; [exact H1|]. split; [exact H2|].
  split; [exact H3|].
  intros Hpos. unfold timedelta_div. destruct (Z.even dt) eqn:E.
  - specialize (H2 eq_refl). lia.
  - lia.
Qed.

Lemma average_datetime_midpoint_witness :
  _average_datetime (mkDatetime (hours 2) (Some (hours 1))) (utc (hours 3))
  = Ok (mkDatetime (hours 3) (Some (hours 1)))
  /\ exists dt,
       datetime_sub (utc (hours 3)) (mkDatetime (hours 2) (Some (hours 1)))
       = Ok dt
       /\ tzinfo (mkDatetime (hours 3) (Some (hours 1))) = Some (hours 1)
       /\ Z.abs (2 * (hours 3 - hours 2) - dt) <= 1.
Proof.
  split; [reflexivity|].
  destruct (average_datetime_midpoint (mkDatetime (hours 2) (Some (hours 1)))
              (utc (hours 3)) (mkDatetime (hours 3) (Some (hours 1))) eq_refl)
    as (dt & H1 & H2 & H3 & _).
  exists dt. auto.
Defined.

(** ** More on the grouper *)

Section GrouperMore.

Context {G : Type}.

Implicit Types (d : date_groups_t G) (e : entry G) (k m : datetime).
Implicit Types (es g : list (entry G)).

Lemma group_loop_Err_entry es : forall d x,
  group_loop d es = Err x ->
  exists before e after,
    es = before ++ e :: after
    /\ (forall e', In e' before -> exists m, midpoint e' = Ok m)
    /\ midpoint e = Err x.
Proof.
  induction es as [|e es IH]; simpl; intros d x; [discriminate|].
  destruct (_average_datetime (start_date e) (end_date e)) as [m|y] eqn:Hm;
    simpl.
  - intros Hx. destruct (IH _ _ Hx) as (before & e' & after & -> & Hb & He').
    exists (e :: before), e', after. split; [reflexivity|]. split; [|exact He'].
    intros e0 [<-|He0]; [exists m; exact Hm | auto].
  - intros [= <-]. exists [], e, es. split; [reflexivity|].
    split; [intros ? []|exact Hm].
Qed.

Lemma group_loop_first_failure before e after x : forall d,
  (forall e', In e' before -> exists m, midpoint e' = Ok m) ->
  midpoint e = Err x ->
  group_loop d (before ++ e :: after) = Err x.
Proof.
  induction before as [|e0 before IH]; simpl; intros d Hb He.
  - unfold midpoint in He. now rewrite He.
  - destruct (Hb e0 (or_introl eq_refl)) as [m Hm]. unfold midpoint in Hm.
    rewrite Hm. simpl. apply IH; auto.
Qed.

Lemma group_loop_app es1 es2 : forall d,
  group_loop d (es1 ++ es2)
  = bind (group_loop d es1) (fun d1 => group_loop d1 es2).
Proof.
  induction es1 as [|e es1 IH]; simpl; intros d; [reflexivity|].
  destruct (_average_datetime (start_date e) (end_date e)); simpl;
    [apply IH | reflexivity].
Qed.

Lemma dict_append_keyed d m e :
  keyed_by_head d -> midpoint e = Ok m -> keyed_by_head (dict_append d m e).
Proof.
  unfold keyed_by_head.
  induction d as [|[k0 g0] d IH]; simpl; intros Hd Hm k g Hin.
  - destruct Hin as [[= <- <-]|[]]. eauto.
  - destruct (datetime_eqb k0 m); simpl in Hin.
    + destruct Hin as [[= <- <-]|Hin]; [|eauto].
      destruct (Hd k0 g0 (or_introl eq_refl)) as (e0 & rest & -> & He0).
      exists e0, (rest ++ [e]). auto.
    + destruct Hin as [[= <- <-]|Hin]; [eauto|].
      apply IH; auto.
Qed.

Lemma group_loop_keyed es : forall d d',
  keyed_by_head d -> group_loop d es = Ok d' -> keyed_by_head d'.
Proof.
  induction es as [|e es IH]; simpl; intros d d' Hd Hloop.
  - now injection Hloop as <-.
  - apply bind_Ok in Hloop as (m & Hm & Hloop).
    apply (IH _ _ (dict_append_keyed d m e Hd Hm) Hloop).
Qed.

Lemma dict_append_keys d m e :
  exists l, dict_keys (dict_append d m e) = dict_keys d ++ l.
Proof.
  unfold dict_keys. induction d as [|[k0 g0] d [l IH]]; simpl.
  - now exists [m].
  - destruct (datetime_eqb k0 m); simpl.
    + exists []. now rewrite app_nil_r.
    + exists l. now rewrite IH.
Qed.

Lemma dict_append_grows d m e k g :
  In (k, g) d -> exists g', In (k, g ++ g') (dict_append d m e).
Proof.
  induction d as [|[k0 g0] d IH]; simpl; intros Hin; [contradiction|].
  destruct (datetime_eqb k0 m); simpl.
  - destruct Hin as [[= <- <-]|Hin].
    + exists [e]. now left.
    + exists []. rewrite app_nil_r. now right.
  - destruct Hin as [[= <- <-]|Hin].
    + exists []. rewrite app_nil_r. now left.
    + destruct (IH Hin) as [g' Hg']. eauto.
Qed.

Lemma group_loop_extends es : forall d d',
  group_loop d es = Ok d' ->
  (exists l, dict_keys d' = dict_keys d ++ l)
  /\ forall k g, In (k, g) d -> exists g', In (k, g ++ g') d'.
Proof.
  induction es as [|e es IH]; simpl; intros d d' Hloop.
  - injection Hloop as <-. split; [exists []; now rewrite app_nil_r|].
    intros k g Hin. exists []. now rewrite app_nil_r.
  - apply bind_Ok in Hloop as (m & Hm & Hloop).
    destruct (IH _ _ Hloop) as [[l Hl] Hgrow].
    destruct (dict_append_keys d m e) as [l0 Hl0]. split.
    + exists (l0 ++ l). now rewrite Hl, Hl0, app_assoc.
    + intros k g Hin. destruct (dict_append_grows d m e k g Hin) as [g1 Hg1].
      destruct (Hgrow _ _ Hg1) as [g2 Hg2].
      exists (g1 ++ g2). now rewrite app_assoc.
Qed.

Lemma group_loop_same_key m0 es : forall g,
  (forall e, In e es -> has_key m0 e = true) ->
  group_loop [(m0, g)] es = Ok [(m0, g ++ es)].
Proof.
  induction es as [|e es IH]; simpl; intros g Hall.
  - now rewrite app_nil_r.
  - pose proof (Hall e (or_introl eq_refl)) as He. unfold has_key, midpoint in He.
    destruct (_average_datetime (start_date e) (end_date e)) as [m|];
      [|discriminate].
    simpl. rewrite He, IH by auto. now rewrite <- app_assoc.
Qed.

Lemma has_key_eqb k k' e :
  datetime_eqb k k' = true -> has_key k e = has_key k' e.
Proof.
  intros Hk. unfold has_key. destruct (midpoint e) as [m|]; [|reflexivity].
  destruct (datetime_eqb k' m) eqn:E.
  - exact (datetime_eqb_trans _ _ _ Hk E).
  - destruct (datetime_eqb k m) eqn:E'; [|reflexivity].
    rewrite datetime_eqb_sym in Hk.
    now rewrite (datetime_eqb_trans _ _ _ Hk E') in E.
Qed.

Lemma dict_getitem_In d : forall k0 g k,
  distinct_keys d -> In (k0, g) d -> datetime_eqb k0 k = true ->
  dict_getitem d k = g.
Proof.
  induction d as [|[k1 g1] d IH]; simpl; intros k0 g k Hd Hin Hk;
    [contradiction|].
  destruct Hd as [Hk1 Hd].
  destruct Hin as [[= -> ->]|Hin]; [now rewrite Hk|].
  destruct (datetime_eqb k1 k) eqn:E; [|now apply IH with k0].
  exfalso. pose proof (Hk1 k0 g Hin) as Hne.
  rewrite datetime_eqb_sym in Hk.
  now rewrite (datetime_eqb_trans _ _ _ E Hk) in Hne.
Qed.

Lemma dict_getitem_missing d k :
  (forall k0 g, In (k0, g) d -> datetime_eqb k0 k = false) ->
  dict_getitem d k = [].
Proof.
  induction d as [|[k1 g1] d IH]; simpl; intros Hall; [reflexivity|].
  rewrite (Hall k1 g1 (or_introl eq_refl)). apply IH. eauto.
Qed.

End GrouperMore.

(** X3: the grouper returns a mapping exactly when the midpoint of every
    entry can be computed; otherwise it raises what [_average_datetime]
    raises for the first entry, in input order, whose midpoint cannot be
    computed, whatever the entries after it are. *)
Theorem grouper_returns_iff {G : Type} (parsed_entries : list (entry G)) :
  ((exists d, group_entries_by_date parsed_entries = Ok d)
   <-> forall e, In e parsed_entries -> exists m, midpoint e = Ok m)
  /\ (forall x,
        group_entries_by_date parsed_entries = Err x
        <-> exists before e after,
              parsed_entries = before ++ e :: after
              /\ (forall e', In e' before -> exists m, midpoint e' = Ok m)
              /\ midpoint e = Err x).
Proof.
  split; split.
  - intros [d Hd] e He.
    exact (midpoint_Ok e (group_loop_Ok_well_dated _ _ _ Hd e He)).
  - intros Hall. apply group_loop_total. intros e He.
    destruct (Hall e He) as [m Hm]. exact (midpoint_Ok_well_dated e m Hm).
  - apply group_loop_Err_entry.
  - intros (before & e & after & -> & Hb & He).
    now apply group_loop_first_failure.
Qed.

Lemma grouper_returns_iff_witness :
  group_entries_by_date (scenario_B ++ [mixed_entry; pass 10 5 10])
  = Err TypeError.
Proof.
  apply (proj2 (grouper_returns_iff
                  (scenario_B ++ [mixed_entry; pass 10 5 10]))).
  exists scenario_B, mixed_entry, [pass 10 5 10]. split; [reflexivity|].
  split; [|reflexivity].
  intros e [<-|[<-|[]]]; eexists; reflexivity.
Defined.

(** X4: the key of every group is the midpoint computed for the first entry
    of the group (timezone included): later entries with an equal midpoint
    join the group without replacing its key. *)
Theorem grouper_key_is_first_midpoint {G : Type}
    (parsed_entries : list (entry G)) (d : date_groups_t G) :
  group_entries_by_date parsed_entries = Ok d ->
  forall k g, In (k, g) d ->
    exists e rest, g = e :: rest /\ midpoint e = Ok k.
Proof.
  intros Hd. apply (group_loop_keyed parsed_entries [] d); [|exact Hd].
  intros k g [].
Qed.

Lemma grouper_key_is_first_midpoint_witness :
  exists e rest, [pass 10 0 5] = e :: rest /\ midpoint e = Ok (naive (hours 10)).
Proof.
  apply (grouper_key_is_first_midpoint scenario_B
           [(naive (hours 40), [pass 40 0 9]); (naive (hours 10), [pass 10 0 5])]).
  - reflexivity.
  - right. now left.
Defined.

(** X5: grouping a concatenation is grouping the first list and continuing
    the loop with the second; the keys of the first list keep their places
    at the front of the mapping, and each of its groups is a prefix of the
    group under the same key in the result. *)
Theorem grouper_app {G : Type} (es1 es2 : list (entry G)) :
  group_entries_by_date (es1 ++ es2)
  = bind (group_entries_by_date es1) (fun d1 => group_loop d1 es2)
  /\ forall d1 d,
       group_entries_by_date es1 = Ok d1 ->
       group_entries_by_date (es1 ++ es2) = Ok d ->
       (exists l, dict_keys d = dict_keys d1 ++ l)
       /\ forall k g, In (k, g) d1 -> exists g', In (k, g ++ g') d.
Proof.
  split; [apply group_loop_app|].
  intros d1 d H1 H. unfold group_entries_by_date in H.
  rewrite group_loop_app in H. unfold group_entries_by_date in H1.
  rewrite H1 in H. simpl in H. exact (group_loop_extends _ _ _ H).
Qed.

Lemma grouper_app_witness :
  exists l,
    dict_keys [(naive (hours 40), [pass 40 0 9]);
               (naive (hours 10), [pass 10 0 5; pass 10 5 10])]
    = dict_keys [(naive (hours 40), [pass 40 0 9]);
                 (naive (hours 10), [pass 10 0 5])] ++ l.
Proof.
  apply (proj2 (grouper_app scenario_B [pass 10 5 10])); reflexivity.
Defined.

(** X6: entries that all have the midpoint of the first one form a single
    group, keyed by that midpoint and holding the whole input in its
    order. *)
Theorem grouper_single_group {G : Type} (e0 : entry G) (es : list (entry G))
    (m0 : datetime) :
  midpoint e0 = Ok m0 ->
  (forall e, In e es -> has_key m0 e = true) ->
  group_entries_by_date (e0 :: es) = Ok [(m0, e0 :: es)].
Proof.
  intros Hm Hall. unfold group_entries_by_date. simpl.
  unfold midpoint in Hm. rewrite Hm. simpl.
  exact (group_loop_same_key m0 es [e0] Hall).
Qed.

Lemma grouper_single_group_witness :
  group_entries_by_date doubled = Ok [(naive 0, doubled)].
Proof.
  apply (grouper_single_group (pass 0 0 10) [pass 0 0 10] (naive 0)).
  - reflexivity.
  - intros e [<-|[]]. reflexivity.
Defined.

(** X7: looking a date up in the mapping that the grouper returns gives the
    input entries whose midpoint equals that date, in input order, and the
    empty list for a date that is no entry's midpoint. *)
Theorem grouper_lookup {G : Type} (parsed_entries : list (entry G))
    (d : date_groups_t G) (k : datetime) :
  group_entries_by_date parsed_entries = Ok d ->
  dict_getitem d k = filter (has_key k) parsed_entries.
Proof.
  intros Hd.
  destruct (group_entries_grouped _ _ Hd) as (Hdist & Hcont & Hcompl & _).
  destruct (existsb (has_key k) parsed_entries) eqn:Ex.
  - apply existsb_exists in Ex as (e & He & Hk).
    destruct (Hcompl e He) as (k0 & g & Hin & Hk0).
    assert (Heq : datetime_eqb k0 k = true).
    { unfold has_key in Hk, Hk0. destruct (midpoint e) as [m|]; [|discriminate].
      apply datetime_eqb_trans with m; [exact Hk0|].
      now rewrite datetime_eqb_sym. }
    rewrite (dict_getitem_In d k0 g k Hdist Hin Heq).
    destruct (Hcont k0 g Hin) as [_ ->].
    apply filter_ext. intros e'. now apply has_key_eqb.
  - assert (Hnone : forall e, In e parsed_entries -> has_key k e = false).
    { intros e He. destruct (has_key k e) eqn:Hk; [|reflexivity].
      assert (existsb (has_key k) parsed_entries = true)
        by (apply existsb_exists; eauto).
      congruence. }
    rewrite (filter_none _ _ Hnone). apply dict_getitem_missing.
    intros k0 g Hin. destruct (datetime_eqb k0 k) eqn:Heq; [|reflexivity].
    destruct (Hcont k0 g Hin) as [Hne Hg]. destruct Hne.
    rewrite Hg. apply filter_none. intros e He.
    now rewrite (has_key_eqb k0 k e Heq), Hnone.
Qed.

Lemma grouper_lookup_witness :
  dict_getitem [(naive (hours 40), [pass 40 0 9]);
                (naive (hours 10), [pass 10 0 5])] (utc (hours 10))
  = filter (has_key (utc (hours 10))) scenario_B.
Proof.
  apply (grouper_lookup scenario_B). reflexivity.
Defined.

(** ** More on the temporal scorer *)

Lemma abs_hours_eq0 (d : timedelta) : (abs_hours d == 0)%Q -> d = 0.
Proof.
  unfold abs_hours, total_seconds, Qdiv, Qmult, Qinv, Qabs, Qeq, inject_Z.
  simpl. lia.
Qed.

(** X8: on two datetimes the temporal scorer raises only
    [ZeroDivisionError], and it does so exactly when [max_diff_hours] is 0
    and the two dates are no time apart. *)
Theorem value_date_raises_iff (overpass_date target_date : datetime)
    (max_diff_hours : Q) (x : exn) :
  _value_date overpass_date target_date max_diff_hours = Err x
  <-> x = ZeroDivisionError
      /\ (max_diff_hours == 0)%Q
      /\ elapsed overpass_date target_date = 0.
Proof.
  rewrite value_date_datetime. split.
  - unfold value_of_ddiff, py_div.
    destruct (Qlt_le_dec _ _) as [|Hle]; [discriminate|].
    destruct (Qeq_bool max_diff_hours 0) eqn:E; [|discriminate].
    intros [= <-]. apply Qeq_bool_eq in E. split; [reflexivity|].
    split; [exact E|]. apply abs_hours_eq0.
    pose proof (abs_hours_nonneg (elapsed overpass_date target_date)). lra.
  - intros (-> & Hm & ->). now apply value_of_ddiff_zero_cutoff.
Qed.

Lemma value_date_raises_iff_witness :
  _value_date (utc (hours 3)) (naive (hours 3)) 0 = Err ZeroDivisionError.
Proof.
  apply (proj2 (value_date_raises_iff (utc (hours 3)) (naive (hours 3)) 0
                  ZeroDivisionError)).
  repeat split.
Defined.

(** ** More on the selector *)

(** X15: the list that the selector returns is made of all the input
    entries whose midpoint equals one date, in input order: entries of the
    chosen pass are never left out and entries of other passes never
    included. *)
Theorem best_overpass_same_date {G : Type} `{Geometry G}
    (parsed_entries : list (entry G)) (aoi_geom : G) (target_date : datetime)
    (max_diff_hours min_overlap_pct : Q) (r : option (list (entry G))) :
  get_best_overpass parsed_entries aoi_geom target_date
    max_diff_hours min_overlap_pct = Ok r ->
  exists k,
    r = Some (filter (has_key k) parsed_entries)
    /\ exists e, In e parsed_entries /\ midpoint e = Ok k.
Proof.
  intros Hr.
  destruct (get_best_overpass_Ok _ _ _ _ _ _ Hr)
    as (d & [k es] & v & Hd & -> & Hfb).
  destruct (first_best_In _ _ _ _ _ _ _ Hfb) as [Hin _].
  pose proof (group_entries_grouped _ _ Hd) as (_ & Hcont & _ & Hperm).
  destruct (Hcont k es Hin) as [_ Hes].
  destruct (group_loop_keyed parsed_entries [] d (fun _ _ F => match F with end)
              Hd k es Hin) as (e & rest & Hes' & Hm).
  exists k. simpl. split; [now rewrite <- Hes|].
  exists e. split; [|exact Hm].
  apply (Permutation_in e Hperm). apply in_concat. exists es.
  split; [|rewrite Hes'; now left].
  change es with (snd (k, es)). now apply in_map.
Qed.

Lemma best_overpass_same_date_witness :
  exists k,
    Some [pass 10 0 5] = Some (filter (has_key k) scenario_B)
    /\ exists e, In e scenario_B /\ midpoint e = Ok k.
Proof.
  apply (best_overpass_same_date scenario_B aoi10 (naive 0) 48 (3 # 10)).
  reflexivity.
Defined.

(** * Further properties of the code over floats *)

Section ScorerFloatMore.

Import Binary64.

Lemma rnd_Fin_lower (a t : Q) :
  (2 ^ (-1022) <= a)%Q -> rnd a = Fin t ->
  (a * (1 - (1 # 9007199254740992)) <= t)%Q.
Proof.
  intros Hlo. pose proof (two_pow_pos (-1022)) as Hp.
  pose proof (rnd_val_error a Hlo) as [E1 _].
  rewrite rnd_of_pos by lra. unfold rnd_pos.
  destruct (Qle_bool (2 ^ 1024) (rnd_val a)); [discriminate|].
  intros E. replace t with (Qred (rnd_val a)) by congruence.
  now rewrite Qred_correct.
Qed.

Lemma normal_from (a : Q) :
  ((1 # 1208925819614629174706176) <= a)%Q -> (2 ^ (-1022) <= a)%Q.
Proof.
  intros H. pose proof (two_pow_le (-1022) (-80) ltac:(lia)) as P.
  assert (E : (2 ^ (-80) == 1 # 1208925819614629174706176)%Q) by reflexivity.
  rewrite E in P. now apply Qle_trans with (1 := P).
Qed.

Lemma exact_hours_nonneg (us : Z) : (0 <= exact_hours us)%Q.
Proof. apply Qabs_nonneg. Qed.

Lemma float_value_inside (ddiff : timedelta) (q : Q) :
  valid_timedelta ddiff -> is_float (Fin q) -> ((1 # 1048576) <= q)%Q ->
  (exact_hours ddiff <= q * (1 - (1 # 1125899906842624)))%Q ->
  exists v, Binary64.value_of_ddiff ddiff (Fin q) = Ok (Fin v)
            /\ ((1 # 9007199254740992) <= v <= 1)%Q.
Proof.
  intros Hv Hf Hq Hin.
  destruct (hours_apart_error ddiff Hv) as (t & Ht & T1 & T2).
  pose proof (exact_hours_nonneg ddiff) as Hh.
  rewrite (float_value_Fin _ _ t Ht) by lra.
  destruct (rnd_between (q - t) q) as (w & Hw & W); [lra | exact Hf |].
  rewrite Hw.
  pose proof (rnd_Fin_lower (q - t) w (normal_from (q - t) ltac:(lra)) Hw) as Lw.
  destruct (float_quotient_range w q W ltac:(lra)) as (v & Hfv & V).
  rewrite Hfv. exists v. split; [reflexivity|]. split; [|apply V].
  cbn [f_div] in Hfv.
  assert (Hy : ((1 # 4503599627370496) <= w / q)%Q)
    by (apply Qle_shift_div_l; lra).
  remember (w / q)%Q as y eqn:Dy.
  pose proof (rnd_Fin_lower y v (normal_from y ltac:(lra)) Hfv) as Lv.
  lra.
Qed.

End ScorerFloatMore.

(** X19: over floats too the temporal scorer is symmetric in its two dates,
    whatever the cutoff: the two calls return the same float or raise the
    same error. *)
Theorem float_value_date_symmetric (overpass_date target_date : datetime)
    (max_diff_hours : Binary64.float) :
  Binary64._value_date overpass_date target_date max_diff_hours
  = Binary64._value_date target_date overpass_date max_diff_hours.
Proof.
  rewrite !float_value_datetime, (elapsed_swap overpass_date target_date).
  now rewrite !float_value_hours, hours_apart_opp.
Qed.

(** X20: when the exact difference in hours is below [max_diff_hours] by
    the fraction [2 ^ -50] of it, the temporal value is a float above 0 (at
    least [2 ^ -53]), for a cutoff that is a float of at least [2 ^ -20]
    hours: such a date is never excluded for being too far. *)
Theorem float_value_positive_inside {T : Type} `{Timestamp T}
    (overpass_date target_date : T) (ddiff : timedelta) (q : Q) :
  try_subtract overpass_date target_date = Ok ddiff ->
  valid_timedelta ddiff ->
  is_float (Binary64.Fin q) -> ((1 # 1048576) <= q)%Q ->
  (exact_hours ddiff <= q * (1 - (1 # 1125899906842624)))%Q ->
  exists v,
    Binary64._value_date overpass_date target_date (Binary64.Fin q)
      = Ok (Binary64.Fin v)
    /\ ((1 # 9007199254740992) <= v <= 1)%Q.
Proof.
  intros Hs Hv Hf Hq Hin. rewrite (float_value_date _ _ _ _ Hs).
  now apply float_value_inside.
Qed.

Lemma float_value_positive_inside_witness :
  (exact_hours (hours 10) <= 48 * (1 - (1 # 1125899906842624)))%Q
  /\ exists v,
       Binary64._value_date (naive (hours 10)) (utc 0) (Binary64.Fin 48)
         = Ok (Binary64.Fin v)
       /\ ((1 # 9007199254740992) <= v <= 1)%Q.
Proof.
  split; [vm_compute; discriminate|].
  apply (float_value_positive_inside (naive (hours 10)) (utc 0) (hours 10) 48);
    [reflexivity | reflexivity | reflexivity | discriminate
    | vm_compute; discriminate].
Defined.

(** X21: four footprints that tile an area of interest have overlap values
    whose exact sum is 1 but whose float sum, added in order, is
    0.9999999999999999: with [min_overlap_pct = 1.0] the selector over
    floats skips the group and raises the error of line 119. *)
Theorem float_sum_below_floor :
  (np_sum (map (overlap_ratio aoi70) sevenths) == 1)%Q
  /\ Binary64.np_sum (map (overlap_ratio64 aoi70) sevenths)
     = Binary64.Fin (9007199254740991 # 9007199254740992)
  /\ Binary64.get_best_overpass sevenths aoi70 (naive 0)
       (Binary64.Fin 48) (Binary64.Fin 1) = Err no_overpass.
Proof. split; [|split]; vm_compute; reflexivity. Qed.

(** X22: with a cutoff of 1e9 hours two passes 100 and 0 microseconds from
    the target both have the temporal value 1.0, and the selector returns
    the one that comes first in the input, though the other is nearer. *)
Theorem float_ties_keep_first :
  Binary64._value_date (naive 100) (naive 0) (Binary64.Fin 1000000000)
  = Ok (Binary64.Fin 1)
  /\ Binary64._value_date (naive 0) (naive 0) (Binary64.Fin 1000000000)
     = Ok (Binary64.Fin 1)
  /\ group_entries_by_date tied
     = Ok [(naive 100, [pass_at 100]); (naive 0, [pass_at 0])]
  /\ Binary64.get_best_overpass tied aoi10 (naive 0)
       (Binary64.Fin 1000000000) (Binary64.rnd (3 # 10))
     = Ok (Some [pass_at 100]).
Proof. split; [|split; [|split]]; vm_compute; reflexivity. Qed.

(** X23: with the cutoff 61740.33485007778 a date whose exact difference
    from the target is below the cutoff has the value 0.0, the computed
    hours being rounded up to the cutoff. *)
Theorem float_inside_cutoff_scores_zero :
  is_float (Binary64.Fin cutoff_61740)
  /\ (exact_hours (elapsed (naive january_2027) (naive new_year_2020))
      < cutoff_61740)%Q
  /\ hours_apart (elapsed (naive january_2027) (naive new_year_2020))
     = Binary64.Fin cutoff_61740
  /\ Binary64._value_date (naive january_2027) (naive new_year_2020)
       (Binary64.Fin cutoff_61740) = Ok (Binary64.Fin 0).
Proof. split; [|split; [|split]]; vm_compute; reflexivity. Qed.

Section SelectorFloatMore.

Import Binary64.

Context {G : Type} `{Binary64.Geometry G} `{Binary64.NumPy}.

Variables (aoi_geom : G) (target_date : datetime) (max_diff_hours : float).

Implicit Types (d : date_groups_t G) (g : datetime * list (entry G)).
Implicit Types (best : Binary64.best_t G) (v : Q) (p : float).

Lemma float_value_Err (ddiff : timedelta) (x : exn) :
  Binary64.value_of_ddiff ddiff max_diff_hours = Err x -> x = ZeroDivisionError.
Proof.
  rewrite float_value_hours. unfold Binary64.py_div.
  destruct (f_ltb _ _); [discriminate|].
  destruct (f_eqb _ _); [|discriminate]. now intros [= <-].
Qed.

Lemma float_loop_zero_area (es : list (entry G)) (acc : list float) :
  f_eqb (Binary64.area aoi_geom) (Fin 0) = true -> es <> [] ->
  Binary64.overlap_loop aoi_geom es acc = Err ZeroDivisionError.
Proof.
  intros Ha. destruct es as [|e es]; [now intros []|]. intros _. simpl.
  unfold Binary64._value_overlap, Binary64.py_div. now rewrite Ha.
Qed.

Lemma float_scan_group_skip d p best (k : datetime) (x : float) :
  Binary64._value_date k target_date max_diff_hours = Ok x ->
  f_eqb x (Fin 0) = true ->
  Binary64.scan_group d aoi_geom target_date max_diff_hours p best k = Ok best.
Proof.
  intros Hv Hz. unfold Binary64.scan_group. destruct best as [bv be].
  rewrite Hv. simpl. now rewrite Hz.
Qed.

Lemma float_scan_all_skipped d p (keys : list datetime) best :
  (forall k, In k keys ->
     exists x, Binary64._value_date k target_date max_diff_hours = Ok x
               /\ f_eqb x (Fin 0) = true) ->
  Binary64.scan d aoi_geom target_date max_diff_hours p keys best = Ok best.
Proof.
  induction keys as [|k keys IH]; simpl; intros Hall; [reflexivity|].
  destruct (Hall k (or_introl eq_refl)) as (x & Hv & Hz).
  rewrite (float_scan_group_skip d p best k x Hv Hz). simpl. apply IH. auto.
Qed.

Lemma float_value_negative_cutoff (k : datetime) (q : Q) :
  max_diff_hours = Fin q -> (q < 0)%Q ->
  Binary64._value_date k target_date max_diff_hours = Ok (Fin 0).
Proof.
  intros -> Hq. rewrite float_value_datetime.
  destruct (hours_apart_shape (elapsed k target_date)) as [(t & Ht & Ht0)|Hinf].
  - apply (float_value_beyond _ _ t). right. split; [exact Ht | lra].
  - apply (float_value_beyond _ _ 0). now left.
Qed.

Lemma float_scan_zero_area d p after : forall before best,
  distinct_keys d -> (forall k es, In (k, es) d -> es <> []) ->
  d = before ++ after ->
  f_eqb (Binary64.area aoi_geom) (Fin 0) = true ->
  (exists g x,
      In g after
      /\ Binary64._value_date (fst g) target_date max_diff_hours = Ok x
      /\ f_eqb x (Fin 0) = false) ->
  Binary64.scan d aoi_geom target_date max_diff_hours p (dict_keys after) best
  = Err ZeroDivisionError.
Proof.
  induction after as [|[k es] after IH]; simpl;
    intros before best Hd Hne Heq Ha (g & x & Hin & Hv & Hx); [contradiction|].
  unfold Binary64.scan_group at 1. destruct best as [bv be].
  destruct (Binary64._value_date k target_date max_diff_hours) as [x0|y]
    eqn:Hv0; simpl.
  - destruct (f_eqb x0 (Fin 0)) eqn:E0; simpl.
    + destruct Hin as [<-|Hin].
      { simpl in Hv. rewrite Hv0 in Hv. injection Hv as <-. congruence. }
      apply (IH (before ++ [(k, es)])); trivial.
      * now rewrite <- app_assoc.
      * eauto.
    + rewrite Heq, dict_getitem_distinct by (rewrite <- Heq; exact Hd).
      rewrite float_loop_zero_area; [reflexivity | exact Ha |].
      apply (Hne k). rewrite Heq. apply in_or_app. right. now left.
  - rewrite float_value_datetime in Hv0.
    now rewrite (float_value_Err _ _ Hv0).
Qed.

Lemma f_ltb_floor (s p p' : float) :
  f_leb p' p = true -> f_ltb s p = false -> f_ltb s p' = false.
Proof.
  destruct s as [a| | |], p as [b| | |], p' as [c| | |];
    cbn [f_leb f_ltb]; trivial; try discriminate.
  intros Hle. apply Qle_bool_iff in Hle.
  destruct (Qlt_le_dec a b); [discriminate|]. intros _.
  destruct (Qlt_le_dec a c); [lra | reflexivity].
Qed.

Lemma qualifies64_floor p p' g v :
  f_leb p' p = true ->
  qualifies64 aoi_geom target_date max_diff_hours p g v ->
  qualifies64 aoi_geom target_date max_diff_hours p' g v.
Proof.
  intros Hp (Hv & Hpos & Hl & Hsum).
  split; [exact Hv|]. split; [exact Hpos|]. split; [exact Hl|].
  exact (f_ltb_floor _ _ _ Hp Hsum).
Qed.

Lemma first_best64_max p d g v g' v' :
  first_best64 aoi_geom target_date max_diff_hours p d g v ->
  In g' d -> qualifies64 aoi_geom target_date max_diff_hours p g' v' ->
  (v' <= v)%Q.
Proof.
  intros (before & after & -> & Hq & Hb & Ha) Hin Hq'.
  apply in_app_or in Hin as [Hin|[<-|Hin]].
  - apply Qlt_le_weak. eauto.
  - rewrite (qualifies64_fun _ _ _ _ _ _ _ Hq' Hq). apply Qle_refl.
  - eauto.
Qed.

Hypothesis cutoff_is_float : is_float max_diff_hours.

Lemma float_best_overpass_returns (entries : list (entry G)) p d g v :
  group_entries_by_date entries = Ok d ->
  In g d -> qualifies64 aoi_geom target_date max_diff_hours p g v ->
  exists g' v',
    Binary64.get_best_overpass entries aoi_geom target_date max_diff_hours p
      = Ok (Some (snd g'))
    /\ first_best64 aoi_geom target_date max_diff_hours p d g' v'
    /\ (v <= v')%Q.
Proof.
  intros Hd Hin Hq.
  pose proof (group_entries_grouped _ _ Hd) as (Hdist & Hne & _).
  assert (Hsnd : snd g <> []) by (destruct g as [k es]; apply (Hne k es Hin)).
  destruct (qualifies64_nonzero _ _ _ _ _ _ Hq Hsnd) as [Hm Ha].
  destruct (scan_total64 aoi_geom target_date max_diff_hours p d (dict_keys d)
              (Fin 0, None) Hm Ha) as [best Hrun].
  destruct (scan_scanned64 _ _ _ _ cutoff_is_float d d [] _ _ Hdist eq_refl
              (scanned64_start _ _ _ _) Hrun)
    as [[_ Hnone]|(g' & v' & _ & Hfb')]; [destruct (Hnone g v Hin Hq)|].
  exists g', v'.
  split; [|split; [exact Hfb' | exact (first_best64_max _ _ _ _ _ _ Hfb' Hin Hq)]].
  exact (float_best_overpass_first_best _ _ _ _ cutoff_is_float _ d g' v'
           Hd Hfb').
Qed.

End SelectorFloatMore.

(** X14: over floats, with an area of interest of area 0 the selector never
    returns; it raises [ZeroDivisionError] whenever grouping succeeds and
    the temporal scorer gives some group a value other than 0. *)
Theorem float_best_overpass_zero_area {G : Type} `{Binary64.Geometry G}
    `{Binary64.NumPy} (parsed_entries : list (entry G)) (aoi_geom : G)
    (target_date : datetime)
    (max_diff_hours min_overlap_pct : Binary64.float) :
  is_float max_diff_hours ->
  Binary64.f_eqb (Binary64.area aoi_geom) (Binary64.Fin 0) = true ->
  (forall r,
      Binary64.get_best_overpass parsed_entries aoi_geom target_date
        max_diff_hours min_overlap_pct <> Ok r)
  /\ (forall d g x,
        group_entries_by_date parsed_entries = Ok d -> In g d ->
        Binary64._value_date (fst g) target_date max_diff_hours = Ok x ->
        Binary64.f_eqb x (Binary64.Fin 0) = false ->
        Binary64.get_best_overpass parsed_entries aoi_geom target_date
          max_diff_hours min_overlap_pct = Err ZeroDivisionError).
Proof.
  intros Hf Ha. split.
  - intros r Hr.
    destruct (float_best_overpass_Ok _ _ _ _ Hf _ _ Hr)
      as (d & g & v & Hd & _ & Hfb).
    destruct (first_best64_In _ _ _ _ _ _ _ Hfb) as [Hin Hq].
    pose proof (group_entries_grouped _ _ Hd) as (_ & Hne & _).
    assert (Hsnd : snd g <> []) by (destruct g as [k es]; apply (Hne k es Hin)).
    destruct (qualifies64_nonzero _ _ _ _ _ _ Hq Hsnd) as [_ Hna]. congruence.
  - intros d g x Hd Hin Hv Hx.
    pose proof (group_entries_grouped _ _ Hd) as (Hdist & Hne & _).
    unfold Binary64.get_best_overpass. rewrite Hd. simpl.
    rewrite (float_scan_zero_area aoi_geom target_date max_diff_hours d
               min_overlap_pct d [] (Binary64.Fin 0, None) Hdist);
      [reflexivity | | reflexivity | exact Ha | eauto].
    intros k es Hk. exact (proj1 (Hne k es Hk)).
Qed.

Lemma float_best_overpass_zero_area_witness :
  Binary64.f_eqb (Binary64.area (mkBox 0 0 0 10)) (Binary64.Fin 0) = true
  /\ Binary64.get_best_overpass scenario_B (mkBox 0 0 0 10) (naive 0)
       (Binary64.Fin 48) (Binary64.rnd (3 # 10)) = Err ZeroDivisionError.
Proof.
  split; [reflexivity|].
  destruct (float_best_overpass_zero_area scenario_B (mkBox 0 0 0 10)
              (naive 0) (Binary64.Fin 48) (Binary64.rnd (3 # 10)))
    as [_ Hraise]; [reflexivity | reflexivity |].
  eapply (Hraise
            [(naive (hours 40), [pass 40 0 9]); (naive (hours 10), [pass 10 0 5])]
            (naive (hours 10), [pass 10 0 5])).
  - reflexivity.
  - right. now left.
  - vm_compute. reflexivity.
  - reflexivity.
Defined.

(** X17: over floats, lowering [min_overlap_pct] never turns a return into
    a failure: the selector then returns the first best group of the same
    mapping under the lower floor, whose temporal value is at least that of
    the group returned under the higher floor. *)
Theorem float_best_overpass_floor_monotone {G : Type} `{Binary64.Geometry G}
    `{Binary64.NumPy} (parsed_entries : list (entry G)) (aoi_geom : G)
    (target_date : datetime) (max_diff_hours p p' : Binary64.float)
    (r : option (list (entry G))) :
  is_float max_diff_hours ->
  Binary64.f_leb p' p = true ->
  Binary64.get_best_overpass parsed_entries aoi_geom target_date
    max_diff_hours p = Ok r ->
  exists d g g' v v',
    group_entries_by_date parsed_entries = Ok d
    /\ first_best64 aoi_geom target_date max_diff_hours p d g v
    /\ first_best64 aoi_geom target_date max_diff_hours p' d g' v'
    /\ r = Some (snd g)
    /\ Binary64.get_best_overpass parsed_entries aoi_geom target_date
         max_diff_hours p' = Ok (Some (snd g'))
    /\ (v <= v')%Q.
Proof.
  intros Hf Hp Hr.
  destruct (float_best_overpass_Ok _ _ _ _ Hf _ _ Hr)
    as (d & g & v & Hd & -> & Hfb).
  destruct (first_best64_In _ _ _ _ _ _ _ Hfb) as [Hin Hq].
  destruct (float_best_overpass_returns aoi_geom target_date max_diff_hours
              Hf parsed_entries p' d g v Hd Hin
              (qualifies64_floor _ _ _ _ _ _ _ Hp Hq))
    as (g' & v' & Hr' & Hfb' & Hle).
  exists d, g, g', v, v'. auto 10.
Qed.

Lemma float_best_overpass_floor_monotone_witness :
  Binary64.get_best_overpass scenario_B aoi10 (naive 0) (Binary64.Fin 48)
    (Binary64.rnd (8 # 10)) = Ok (Some [pass 40 0 9])
  /\ exists d g g' v v',
       group_entries_by_date scenario_B = Ok d
       /\ first_best64 aoi10 (naive 0) (Binary64.Fin 48)
            (Binary64.rnd (8 # 10)) d g v
       /\ first_best64 aoi10 (naive 0) (Binary64.Fin 48)
            (Binary64.rnd (3 # 10)) d g' v'
       /\ Some [pass 40 0 9] = Some (snd g)
       /\ Binary64.get_best_overpass scenario_B aoi10 (naive 0)
            (Binary64.Fin 48) (Binary64.rnd (3 # 10))
          = Ok (Some (snd g'))
       /\ (v <= v')%Q.
Proof.
  split; [vm_compute; reflexivity|].
  apply (float_best_overpass_floor_monotone scenario_B aoi10 (naive 0)
           (Binary64.Fin 48) (Binary64.rnd (8 # 10)) (Binary64.rnd (3 # 10)));
    [reflexivity | vm_compute; reflexivity | vm_compute; reflexivity].
Defined.

(** X18: over floats, when grouping succeeds and the temporal scorer gives
    every group a value equal to 0, the selector raises the error of line
    119 without computing any overlap, so also for an area of interest of
    area 0; a negative [max_diff_hours] gives every group the value 0.0. *)
Theorem float_best_overpass_all_zero {G : Type} `{Binary64.Geometry G}
    `{Binary64.NumPy} (parsed_entries : list (entry G)) (aoi_geom : G)
    (target_date : datetime)
    (max_diff_hours min_overlap_pct : Binary64.float) (d : date_groups_t G) :
  group_entries_by_date parsed_entries = Ok d ->
  ((exists q, max_diff_hours = Binary64.Fin q /\ (q < 0)%Q)
   \/ forall g, In g d ->
        exists x,
          Binary64._value_date (fst g) target_date max_diff_hours = Ok x
          /\ Binary64.f_eqb x (Binary64.Fin 0) = true) ->
  Binary64.get_best_overpass parsed_entries aoi_geom target_date
    max_diff_hours min_overlap_pct = Err no_overpass.
Proof.
  intros Hd Hcut.
  assert (Hall : forall g, In g d ->
            exists x,
              Binary64._value_date (fst g) target_date max_diff_hours = Ok x
              /\ Binary64.f_eqb x (Binary64.Fin 0) = true).
  { destruct Hcut as [(q & Hm & Hq)|Hall]; [|exact Hall].
    intros g _. exists (Binary64.Fin 0).
    split; [exact (float_value_negative_cutoff _ _ _ q Hm Hq) | reflexivity]. }
  unfold Binary64.get_best_overpass. rewrite Hd. simpl.
  rewrite float_scan_all_skipped; [reflexivity|].
  intros k Hk. unfold dict_keys in Hk. apply in_map_iff in Hk as (g & <- & Hin).
  exact (Hall g Hin).
Qed.

Lemma float_best_overpass_all_zero_witness :
  Binary64.get_best_overpass scenario_B (mkBox 0 0 0 10) (naive 0)
    (Binary64.Fin (-1)) (Binary64.rnd (3 # 10)) = Err no_overpass.
Proof.
  apply (float_best_overpass_all_zero scenario_B (mkBox 0 0 0 10) (naive 0)
           (Binary64.Fin (-1)) (Binary64.rnd (3 # 10))
           [(naive (hours 40), [pass 40 0 9]); (naive (hours 10), [pass 10 0 5])]).
  - reflexivity.
  - left. exists (-1)%Q. split; reflexivity.
Defined.
